(** * PerfumeMatchingEngine: a shallow embedding of [matching_engine.py]

    The engine classifies product names (type, size, rejection), derives a
    word-order-insensitive fingerprint, loads products from tables and
    matches a merchant's products against competitor products of the same
    type and size.

    Python strings are sequences of Unicode code points: they are modelled
    as lists of code points, so that the Arabic vocabulary of the engine is
    handled exactly like the Latin one. *)

From Stdlib Require Import String Ascii List NArith ZArith QArith Bool Lia.
From Stdlib Require Import Permutation DecimalString Qround Qabs Qpower Lqa Sorted.
Import ListNotations.


(* ================================================================== *)
(** * Python strings *)
(* ================================================================== *)

Definition codepoint := N.
Definition pystr := list codepoint.

(** The source file is UTF-8: its literals are decoded to code points. *)
Fixpoint utf8_decode (bs : list N) : pystr :=
  match bs with
  | [] => []
  | b0 :: r0 =>
    if (b0 <? 128)%N then b0 :: utf8_decode r0
    else if (b0 <? 224)%N then
      match r0 with
      | b1 :: r1 => ((b0 - 192) * 64 + (b1 - 128))%N :: utf8_decode r1
      | _ => []
      end
    else if (b0 <? 240)%N then
      match r0 with
      | b1 :: b2 :: r2 =>
        ((b0 - 224) * 4096 + (b1 - 128) * 64 + (b2 - 128))%N :: utf8_decode r2
      | _ => []
      end
    else
      match r0 with
      | b1 :: b2 :: b3 :: r3 =>
        ((b0 - 240) * 262144 + (b1 - 128) * 4096 + (b2 - 128) * 64 + (b3 - 128))%N
          :: utf8_decode r3
      | _ => []
      end
  end.

Definition py (s : string) : pystr :=
  utf8_decode (map (fun a => N_of_ascii a) (list_ascii_of_string s)).

(** [str.isspace] and the regular expression class [\s] share one table,
    CPython's [_PyUnicode_IsWhitespace]. *)
Definition isspace (c : codepoint) : bool :=
  ((9 <=? c) && (c <=? 13) || (28 <=? c) && (c <=? 32) || (c =? 133) || (c =? 160)
   || (c =? 5760) || (8192 <=? c) && (c <=? 8202) || (c =? 8232) || (c =? 8233)
   || (c =? 8239) || (c =? 8287) || (c =? 12288))%N.

Definition nonspace (c : codepoint) : bool := negb (isspace c).

(** The Unicode tables behind [str.lower], [\w] and [\d] are Python's, not
    the engine's: the engine is parameterised by them. [digit_value c] is
    [Some v] exactly when [c] is a decimal digit (what [\d] matches), of
    value [v] (what [int] reads). *)
Class Unicode := {
  lower : pystr -> pystr;
  isword : codepoint -> bool;
  digit_value : codepoint -> option N
}.

Definition isdigit `{Unicode} (c : codepoint) : bool :=
  match digit_value c with Some _ => true | None => false end.

(** ** Substrings *)

Fixpoint starts_with (p s : pystr) : bool :=
  match p, s with
  | [], _ => true
  | _ :: _, [] => false
  | x :: p', y :: s' => (x =? y)%N && starts_with p' s'
  end.

(** [sub in s] *)
Fixpoint contains (sub s : pystr) : bool :=
  starts_with sub s ||
  match s with
  | [] => false
  | _ :: tl => contains sub tl
  end.

(** [any(k in s for k in ks)] *)
Definition any_in (ks : list pystr) (s : pystr) : bool :=
  existsb (fun k => contains k s) ks.

(** [s.replace(w, "")]: the occurrences of [w] are removed from left to
    right, without overlap. [skip] counts the characters of an occurrence
    that are still to be dropped. *)
Fixpoint remove_from (w : pystr) (skip : nat) (s : pystr) : pystr :=
  match s with
  | [] => []
  | c :: tl =>
    match skip with
    | S k => remove_from w k tl
    | O => if starts_with w s then remove_from w (length w - 1) tl
           else c :: remove_from w 0 tl
    end
  end.

Definition remove_all (w s : pystr) : pystr :=
  match w with
  | [] => s
  | _ => remove_from w 0 s
  end.

(** ** Splitting, sorting, joining *)

Definition emit (cur : pystr) : list pystr :=
  match cur with
  | [] => []
  | _ => [cur]
  end.

(** [s.split()]: the maximal runs of non-whitespace; [cur] is the run
    being read. *)
Fixpoint split_from (cur s : pystr) : list pystr :=
  match s with
  | [] => emit cur
  | c :: tl => if isspace c then emit cur ++ split_from [] tl
               else split_from (cur ++ [c]) tl
  end.

Definition split (s : pystr) : list pystr := split_from [] s.

(** Python compares strings code point by code point. *)
Fixpoint str_leb (a b : pystr) : bool :=
  match a, b with
  | [], _ => true
  | _ :: _, [] => false
  | x :: a', y :: b' =>
    if (x <? y)%N then true else if (x =? y)%N then str_leb a' b' else false
  end.

Fixpoint insert_sorted (x : pystr) (l : list pystr) : list pystr :=
  match l with
  | [] => [x]
  | y :: t => if str_leb x y then x :: l else y :: insert_sorted x t
  end.

(** [sorted(l)] on strings. *)
Definition sorted (l : list pystr) : list pystr :=
  fold_right insert_sorted [] l.

(** [sep.join(l)] *)
Fixpoint join (sep : pystr) (l : list pystr) : pystr :=
  match l with
  | [] => []
  | x :: t =>
    match t with
    | [] => x
    | _ => x ++ sep ++ join sep t
    end
  end.

Fixpoint lstrip (s : pystr) : pystr :=
  match s with
  | [] => []
  | c :: tl => if isspace c then lstrip tl else s
  end.

(** [s.strip()] *)
Definition strip (s : pystr) : pystr := rev (lstrip (rev (lstrip s))).

(** [s.rsplit(".", 1)[0]]: what stands before the last dot, the whole
    string when it has none. *)
Fixpoint before_last_dot (s : pystr) : option pystr :=
  match s with
  | [] => None
  | c :: tl =>
    match before_last_dot tl with
    | Some r => Some (c :: r)
    | None => if (c =? 46)%N then Some [] else None
    end
  end.

Definition rsplit_dot_head (s : pystr) : pystr :=
  match before_last_dot s with
  | Some r => r
  | None => s
  end.

(* ================================================================== *)
(** * Python values *)
(* ================================================================== *)

(** A [float]: a finite value, an infinity or not-a-number. A finite
    value is kept as the rational it is (every binary64 value is one);
    comparisons are exact, and what a conversion or an operation yields is
    rounded to binary64 by [round_binary64]. The sign of a zero is not
    kept: the engine compares floats and never reads it. *)
Inductive pyfloat :=
| Finite (q : Q)
| Inf (negative : bool)
| NaN.

(** Rounding to the nearest integer, halves to the even one. *)
Definition round_half_even (q : Q) : Z :=
  let f := Qfloor q in
  let r := (q - inject_Z f)%Q in
  match Qcompare r (1 # 2) with
  | Lt => f
  | Gt => (f + 1)%Z
  | Eq => if Z.even f then f else (f + 1)%Z
  end.

Definition pow2 (k : Z) : Q := Qpower 2 k.

(** The binary exponent of a positive rational: [2^e <= q < 2^(e+1)]. *)
Definition ilog2 (q : Q) : Z :=
  let e := (Z.log2 (Qnum q) - Z.log2 (Zpos (Qden q)))%Z in
  if Qle_bool (pow2 e) q then e else (e - 1)%Z.

(** The binary64 value nearest to [q], halves to the even significand. A
    binary64 has 53 bits of significand and exponents from -1022 to 1023:
    below the least exponent the spacing stays [2^-1074], and what rounds
    to [2^1024] or more is an infinity. *)
Definition round_binary64 (q : Q) : pyfloat :=
  if Qeq_bool q 0 then Finite 0
  else
    let a := Qabs q in
    let k := (Z.max (ilog2 a) (-1022) - 52)%Z in
    let v := Qred (inject_Z (round_half_even (a / pow2 k)) * pow2 k) in
    if Qle_bool (pow2 1024) v then Inf (negb (Qle_bool 0 q))
    else Finite (if Qle_bool 0 q then v else Qred (- v)).

(** What a table cell or a function argument can hold: a string, an
    [int] (a cell of a column that holds large integers is a Python
    [int], of any size the readers of pandas yield: one of more than 4300
    digits is neither read by [int] nor written by [str]), a [float], a
    [bool], a date, a time of day or a duration (of pandas or of
    [datetime]; [t] numbers them, the missing date [NaT] among them) or
    [None]. A cell that is missing in the file is read as [VFloat NaN]. *)
Inductive pyval :=
| VStr (s : pystr)
| VInt (z : Z)
| VFloat (x : pyfloat)
| VBool (b : bool)
| VDate (t : Z)
| VNone.

(** [float(str)], the [repr] of a finite float and the [str] of a date,
    a time or a duration are Python's and pandas' built-ins:
    [float_of_str s = None] stands for [ValueError]. *)
Class Builtins := {
  float_of_str : pystr -> option pyfloat;
  repr_finite : Q -> pystr;
  str_date : Z -> pystr
}.

(** The decimal numeral of an integer: [str] of an [int] of at most 4300
    digits. *)
Definition str_of_int (z : Z) : pystr :=
  py (DecimalString.NilZero.string_of_int (Z.to_int z)).

(** [str(v)] *)
Definition py_str `{Builtins} (v : pyval) : pystr :=
  match v with
  | VStr s => s
  | VInt z => str_of_int z
  | VFloat (Finite q) => repr_finite q
  | VFloat (Inf false) => py "inf"
  | VFloat (Inf true) => py "-inf"
  | VFloat NaN => py "nan"
  | VBool true => py "True"
  | VBool false => py "False"
  | VDate t => str_date t
  | VNone => py "None"
  end.

(** What [float(v)] does: it returns a value, or raises [ValueError] or
    [TypeError] ([Refused]), or raises [OverflowError] ([Overflow]). *)
Inductive conversion :=
| Value (x : pyfloat)
| Refused
| Overflow.

(** [float] of an [int]: the nearest binary64, [OverflowError] when that
    is out of range. *)
Definition float_of_int (z : Z) : conversion :=
  match round_binary64 (inject_Z z) with
  | Finite q => Value (Finite q)
  | _ => Overflow
  end.

(** [float(v)] *)
Definition py_float `{Builtins} (v : pyval) : conversion :=
  match v with
  | VStr s => match float_of_str s with
              | Some x => Value x
              | None => Refused
              end
  | VInt z => float_of_int z
  | VFloat x => Value x
  | VBool b => Value (Finite (if b then 1 else 0))
  | VDate _ => Refused
  | VNone => Refused
  end.

(** [a - b]: the exact difference of finite values, rounded. *)
Definition float_sub (a b : pyfloat) : pyfloat :=
  match a, b with
  | NaN, _ | _, NaN => NaN
  | Finite x, Finite y => round_binary64 (x - y)
  | Finite _, Inf n => Inf (negb n)
  | Inf n, Finite _ => Inf n
  | Inf n, Inf m => if Bool.eqb n m then NaN else Inf n
  end.

(** [x < 0] and [x > 0] *)
Definition float_neg (x : pyfloat) : bool :=
  match x with
  | Finite q => negb (Qle_bool 0 q)
  | Inf n => n
  | NaN => false
  end.

Definition float_pos (x : pyfloat) : bool :=
  match x with
  | Finite q => negb (Qle_bool q 0)
  | Inf n => negb n
  | NaN => false
  end.

(** [round(x, 2)]: the binary64 nearest to the two-decimal numeral that
    is nearest to [x], halves to the even numeral. *)
Definition round2 (x : pyfloat) : pyfloat :=
  match x with
  | Finite q => round_binary64 (inject_Z (round_half_even (q * 100)) / 100)
  | _ => x
  end.

(** The default of [sys.get_int_max_str_digits()]. *)
Definition INT_MAX_STR_DIGITS : Z := 4300.

(* ================================================================== *)
(** * The engine's vocabularies *)
(* ================================================================== *)

Definition REJECTED : list pystr :=
  Eval vm_compute in map py ["عينة"; "sample"; "تقسيم"; "decant"]%string.
Definition TESTER : list pystr :=
  Eval vm_compute in map py ["تستر"; "tester"; "testeur"]%string.
Definition HAIR_MIST : list pystr :=
  Eval vm_compute in map py ["عطر شعر"; "hair mist"]%string.
Definition BODY_MIST : list pystr :=
  Eval vm_compute in map py ["body mist"; "body spray"; "ميست"]%string.
Definition SET : list pystr :=
  Eval vm_compute in map py ["طقم"; "set"; "مجموعة"; "gift set"]%string.

Definition NOISE : list pystr :=
  Eval vm_compute in map py
    ["عطر"; "perfume"; "parfum"; "ml"; "مل";
     "edp"; "edt"; "eau"; "de"; "toilette";
     "spray"; "intense"; "original"; "اصلي"]%string.

(** The product types, and the labels the engine writes for them. *)
Inductive ptype := TRejected | TSet | THairMist | TBodyMist | TTester | TRetail.

Definition ptype_label (t : ptype) : pystr :=
  match t with
  | TRejected => py "Rejected"
  | TSet => py "Set"
  | THairMist => py "Hair Mist"
  | TBodyMist => py "Body Mist"
  | TTester => py "Tester"
  | TRetail => py "Retail"
  end.

Definition ptype_eqb (a b : ptype) : bool :=
  match a, b with
  | TRejected, TRejected | TSet, TSet | THairMist, THairMist
  | TBodyMist, TBodyMist | TTester, TTester | TRetail, TRetail => true
  | _, _ => false
  end.

(* ================================================================== *)
(** * Classifier and fingerprinter *)
(* ================================================================== *)

Section Text.
Context {U : Unicode} {B : Builtins}.

(** ** The size pattern [(\d+)\s*(?:ml|مل)] *)

Definition unit_here (s : pystr) : bool :=
  starts_with [109; 108]%N s || starts_with [1605; 1604]%N s.

(** [\s*(?:ml|مل)] at the head of [s]: whitespace is taken greedily, and
    given back when the unit does not follow. *)
Fixpoint ws_unit (s : pystr) : bool :=
  match s with
  | [] => false
  | c :: tl => (isspace c && ws_unit tl) || unit_here s
  end.

(** The whole pattern at the head of [s]: the digits of group 1. Digits
    are taken greedily, and given back when the rest does not follow. *)
Fixpoint size_here (s : pystr) : option pystr :=
  match s with
  | [] => None
  | c :: tl =>
    if isdigit c then
      match size_here tl with
      | Some ds => Some (c :: ds)
      | None => if ws_unit tl then Some [c] else None
      end
    else None
  end.

(** [re.search]: the match at the leftmost position that has one. *)
Fixpoint re_search_size (s : pystr) : option pystr :=
  match size_here s with
  | Some ds => Some ds
  | None =>
    match s with
    | [] => None
    | _ :: tl => re_search_size tl
    end
  end.

(** The number a string of decimal digits writes. *)
Definition digits_number (ds : pystr) : Z :=
  fold_left
    (fun acc c => match digit_value c with
                  | Some v => (10 * acc + Z.of_N v)%Z
                  | None => acc
                  end)
    ds 0%Z.

(** [int(ds)] on a string of decimal digits: [None] is the [ValueError]
    Python raises for a string of more than [sys.get_int_max_str_digits()]
    digits, leading zeros counted. *)
Definition int_of_digits (ds : pystr) : option Z :=
  if (Z.of_nat (List.length ds) <=? INT_MAX_STR_DIGITS)%Z
  then Some (digits_number ds)
  else None.

Definition classify_type (low : pystr) : ptype :=
  if any_in SET low then TSet
  else if any_in HAIR_MIST low then THairMist
  else if any_in BODY_MIST low then TBodyMist
  else if any_in TESTER low then TTester
  else TRetail.

Definition extract_size (low : pystr) : option Z :=
  match re_search_size low with
  | Some ds => int_of_digits ds
  | None => Some 0%Z
  end.

(** [None] is the [ValueError] of [int]: a rejected name is returned
    before the size is looked for. *)
Definition _classify (name : pyval) : option (ptype * Z * bool) :=
  let low := lower (py_str name) in
  if any_in REJECTED low then Some (TRejected, 0%Z, true)
  else
    let ptype := classify_type low in
    match extract_size low with
    | Some size => Some (ptype, size, false)
    | None => None
    end.

(** ** The fingerprint *)

(** [re.sub("[إأآا]", "ا", txt)] and [re.sub("ة", "ه", txt)] *)
Definition norm_alif (c : codepoint) : codepoint :=
  if ((c =? 1573) || (c =? 1571) || (c =? 1570) || (c =? 1575))%N then 1575%N else c.

Definition norm_teh (c : codepoint) : codepoint :=
  if (c =? 1577)%N then 1607%N else c.

Definition strip_noise (txt : pystr) : pystr :=
  fold_left (fun t w => remove_all w t) NOISE txt.

(** [re.sub(r"[^\w\s]", "", txt)] and [re.sub(r"\d+", "", txt)] *)
Definition keep_word_space (txt : pystr) : pystr :=
  filter (fun c => isword c || isspace c) txt.

Definition drop_digits (txt : pystr) : pystr :=
  filter (fun c => negb (isdigit c)) txt.

(** The text of the fingerprint before it is split. *)
Definition clean (s : pystr) : pystr :=
  drop_digits (keep_word_space (strip_noise (map norm_teh (map norm_alif (lower s))))).

Definition _fingerprint (name : pyval) : pystr :=
  match name with
  | VStr s => strip (join [32%N] (sorted (split (clean s))))
  | _ => []
  end.

End Text.

(* ================================================================== *)
(** * Product loader *)
(* ================================================================== *)

(** A table as pandas hands it over: the column labels and the rows, one
    cell per column. The readers of pandas make the labels of a table
    distinct, so a column is named here by its position. *)
Record DataFrame := {
  columns : list pyval;
  rows : list (list pyval)
}.

Record Product := {
  p_name : pystr;
  p_price : pyfloat;
  p_type : ptype;
  p_size : Z;
  p_fp : pystr
}.

(** [row[col]] *)
Definition cell (row : list pyval) (col : nat) : pyval :=
  nth col row (VFloat NaN).

Section Loader.
Context {U : Unicode} {B : Builtins}.

Definition is_name_header (cl : pystr) : bool :=
  contains (py "اسم") cl || contains (py "name") cl || contains (py "منتج") cl.

Definition is_price_header (cl : pystr) : bool :=
  contains (py "سعر") cl || contains (py "price") cl.

(** One turn of the loop over the columns; [i] is the position of [c]. *)
Definition guess_step (acc : nat * nat * nat) (c : pyval) : nat * nat * nat :=
  let '(i, name_col, price_col) := acc in
  let cl := lower (py_str c) in
  (S i,
   if is_name_header cl then i else name_col,
   if is_price_header cl then i else price_col).

(** [None] is the [IndexError] of [cols[0]] on a table with no column. *)
Definition _guess_columns (df : DataFrame) : option (nat * nat) :=
  match columns df with
  | [] => None
  | cols =>
    let '(_, name_col, price_col) :=
      fold_left guess_step cols (O, O, (List.length cols - 1)%nat) in
    Some (name_col, price_col)
  end.

(** One turn of the loop over the rows: [products] is the list so far.
    [None] when the turn raises: [_classify] is called outside the [try],
    and the [try] around [float] catches [ValueError] and [TypeError]
    only. *)
Definition load_row (name_col price_col : nat)
    (products : list Product) (row : list pyval) : option (list Product) :=
  let raw_name := py_str (cell row name_col) in
  match _classify (VStr raw_name) with
  | None => None
  | Some (ptype, size, rejected) =>
    if rejected then Some products
    else
      match py_float (cell row price_col) with
      | Overflow => None
      | Refused => Some products
      | Value price =>
        Some (products ++
              [{| p_name := raw_name; p_price := price; p_type := ptype;
                  p_size := size; p_fp := _fingerprint (VStr raw_name) |}])
      end
  end.

(** The loop over the rows stops at the first turn that raises. *)
Definition load_rows (name_col price_col : nat) (rows : list (list pyval))
    : option (list Product) :=
  fold_left (fun acc row => match acc with
                            | Some products => load_row name_col price_col products row
                            | None => None
                            end)
            rows (Some []).

(** [None] when the column guess or a turn of the loop raises. *)
Definition _load_products (df : DataFrame) : option (list Product) :=
  match _guess_columns df with
  | None => None
  | Some (name_col, price_col) => load_rows name_col price_col (rows df)
  end.

End Loader.

(* ================================================================== *)
(** * Strict matching *)
(* ================================================================== *)

Inductive decision := Losing | Leading | Tied.

(** The labels of the three decisions: a coloured disc, then a word. *)
Definition decision_label (d : decision) : pystr :=
  match d with
  | Losing => py "🔴 خاسر"
  | Leading => py "🟢 قائد"
  | Tied => py "🟡 متعادل"
  end.

Record MatchRecord := {
  m_my_name : pystr;
  m_my_type : ptype;
  m_my_price : pyfloat;
  m_competitor : pystr;
  m_comp_product : pystr;
  m_comp_price : pyfloat;
  m_size : Z;
  m_diff : pyfloat;
  m_decision : decision;
  m_score : Z
}.

(** An uploaded file: its name and the table [_read_file] has pandas
    decode from its bytes (as CSV when the name ends in .csv, as a
    spreadsheet otherwise). *)
Record File := {
  f_name : pystr;
  f_table : DataFrame
}.

Fixpoint str_eqb (a b : pystr) : bool :=
  match a, b with
  | [], [] => true
  | x :: a', y :: b' => (x =? y)%N && str_eqb a' b'
  | _, _ => false
  end.

Definition Qlt_bool (a b : Q) : bool := negb (Qle_bool b a).

Section Matching.
Context {U : Unicode} {B : Builtins}.

(** [fuzz.WRatio] of rapidfuzz: a score between 0 and 100. *)
Variable WRatio : pystr -> pystr -> Q.

(** [process.extractOne(query, choices, scorer=fuzz.WRatio)] of rapidfuzz:
    the choice of highest score with its score, the first one among
    equals, and [None] when there is no choice. *)
Definition extract_step (query : pystr) (result : option (pystr * Q))
    (choice : pystr) : option (pystr * Q) :=
  let score := WRatio query choice in
  match result with
  | None => Some (choice, score)
  | Some (_, best) => if Qlt_bool best score then Some (choice, score) else result
  end.

Definition extractOne (query : pystr) (choices : list pystr) : option (pystr * Q) :=
  fold_left (extract_step query) choices None.

(** The strict filter: same type and same size. *)
Definition candidates_of (comp_products : list Product) (my_p : Product) : list Product :=
  filter (fun c => ptype_eqb (p_type c) (p_type my_p) && (p_size c =? p_size my_p)%Z)
         comp_products.

Definition decide (diff : pyfloat) : decision :=
  if float_neg diff then Losing
  else if float_pos diff then Leading
  else Tied.

(** One turn of the loop over the merchant's products. *)
Definition match_step (comp_name : pystr) (comp_products : list Product)
    (min_score : Z) (all_matches : list MatchRecord) (my_p : Product)
    : list MatchRecord :=
  if (p_size my_p =? 0)%Z then all_matches
  else
    let candidates := candidates_of comp_products my_p in
    match candidates with
    | [] => all_matches
    | _ =>
      let fps := map p_fp candidates in
      match extractOne (p_fp my_p) fps with
      | None => all_matches
      | Some (choice, score) =>
        if Qlt_bool score (inject_Z min_score) then all_matches
        else
          (* [candidates[fps.index(choice)]]: the first candidate with this
             fingerprint; there is one, since [choice] is taken from [fps] *)
          match find (fun c => str_eqb (p_fp c) choice) candidates with
          | None => all_matches
          | Some best =>
            let diff := float_sub (p_price best) (p_price my_p) in
            all_matches ++
              [{| m_my_name := p_name my_p;
                  m_my_type := p_type my_p;
                  m_my_price := p_price my_p;
                  m_competitor := comp_name;
                  m_comp_product := p_name best;
                  m_comp_price := p_price best;
                  m_size := p_size my_p;
                  m_diff := round2 diff;
                  m_decision := decide diff;
                  m_score := round_half_even score |}]
          end
      end
    end.

(** One turn of the loop over the competitor files; [None] when loading
    the file's table raises. *)
Definition file_step (my_products : list Product) (min_score : Z)
    (acc : option (list MatchRecord)) (cf : File) : option (list MatchRecord) :=
  match acc with
  | None => None
  | Some all_matches =>
    let comp_name := rsplit_dot_head (f_name cf) in
    match _load_products (f_table cf) with
    | None => None
    | Some comp_products =>
      Some (fold_left (match_step comp_name comp_products min_score)
                      my_products all_matches)
    end
  end.

Definition run_full_analysis (my_file : File) (comp_files : list File)
    (min_score : Z) : option (list MatchRecord) :=
  match _load_products (f_table my_file) with
  | None => None
  | Some my_products =>
    fold_left (file_step my_products min_score) comp_files (Some [])
  end.

End Matching.

(* ================================================================== *)
(** * What is assumed of Python's tables *)
(* ================================================================== *)

(** The two blocks the engine's vocabulary is written in: Basic Latin and
    Arabic. *)
Definition basic (c : codepoint) : bool :=
  ((c <? 128) || (1536 <=? c) && (c <=? 1791))%N.

Definition ascii_lower (c : codepoint) : codepoint :=
  if ((65 <=? c) && (c <=? 90))%N then (c + 32)%N else c.

(** [\w] on the two blocks: letters, digits and the underscore. *)
Definition basic_isword (c : codepoint) : bool :=
  ((48 <=? c) && (c <=? 57) || (65 <=? c) && (c <=? 90) || (c =? 95)
   || (97 <=? c) && (c <=? 122)
   || (1568 <=? c) && (c <=? 1610) || (1632 <=? c) && (c <=? 1641)
   || (1646 <=? c) && (c <=? 1647) || (1649 <=? c) && (c <=? 1747)
   || (c =? 1749) || (1765 <=? c) && (c <=? 1766)
   || (1774 <=? c) && (c <=? 1788) || (c =? 1791))%N.

(** [\d] and [int] on the two blocks: the digits 0-9, the Arabic-Indic
    digits and the extended Arabic-Indic digits. *)
Definition basic_digit_value (c : codepoint) : option N :=
  if ((48 <=? c) && (c <=? 57))%N then Some (c - 48)%N
  else if ((1632 <=? c) && (c <=? 1641))%N then Some (c - 1632)%N
  else if ((1776 <=? c) && (c <=? 1785))%N then Some (c - 1776)%N
  else None.

(** Python's tables restricted to the two blocks; a character outside
    them is left as it is, and is neither a word character nor a digit. *)
Definition basic_unicode : Unicode := {|
  lower := map ascii_lower;
  isword := basic_isword;
  digit_value := basic_digit_value
|}.

(** Facts of Python's Unicode tables that the proofs rely on. *)
Class UnicodeLaws (U : Unicode) : Prop := {
  (** on the two blocks only the letters A-Z have a lowercase *)
  lower_basic : forall s, forallb basic s = true -> lower s = map ascii_lower s;
  (** whitespace has no case and casing does not look across it *)
  lower_space : forall a c b,
    isspace c = true -> lower (a ++ c :: b) = lower a ++ c :: lower b;
  lower_nonspace : forall t,
    forallb nonspace t = true -> forallb nonspace (lower t) = true;
  (** the characters of lowercased text have no lowercase of their own *)
  lower_fixed : forall u,
    (forall c, In c u -> exists s, In c (lower s)) -> lower u = u;
  (** a digit is not whitespace *)
  digit_nonspace : forall c v, digit_value c = Some v -> isspace c = false
}.

(** The [repr] of a finite float is written with digits, a point, a sign
    and an exponent mark; the [str] of a date, a time or a duration with
    digits, dashes, colons, a point, a comma, a sign, a blank and the word
    "days", and the missing date is written "NaT". *)
Definition numeral_chars : pystr := Eval vm_compute in py "0123456789.e+-".
Definition date_chars : pystr := Eval vm_compute in py "0123456789-:.,+ daysNT".

Class BuiltinsLaws (B : Builtins) : Prop := {
  repr_finite_chars : forall q c, In c (repr_finite q) -> In c numeral_chars;
  str_date_chars : forall t c, In c (str_date t) -> In c date_chars
}.

(** A stand-in for the built-ins that is right on plain integer numerals,
    on integer-valued floats and on the first instant of 1970, for tables
    that hold no other numeral and no other date. *)
Fixpoint digits_value (ds : pystr) (acc : Z) : option Z :=
  match ds with
  | [] => Some acc
  | c :: tl =>
    if ((48 <=? c) && (c <=? 57))%N
    then digits_value tl (10 * acc + Z.of_N (c - 48))%Z
    else None
  end.

Definition plain_float_of_str (s : pystr) : option pyfloat :=
  match strip s with
  | [] => None
  | 45%N :: (_ :: _) as ds =>
    option_map (fun z => round_binary64 (inject_Z (- z))) (digits_value ds 0%Z)
  | ds => option_map (fun z => round_binary64 (inject_Z z)) (digits_value ds 0%Z)
  end.

Definition plain_builtins : Builtins := {|
  float_of_str := plain_float_of_str;
  repr_finite := fun q => str_of_int (Qfloor q) ++ py ".0";
  str_date := fun _ => py "1970-01-01 00:00:00"
|}.

(* ================================================================== *)
(** * Notions the statements are written with *)
(* ================================================================== *)

Section Notions.
Context {U : Unicode}.

(** The size pattern matches at the head of [s] with [ds] as its digits:
    [s] is [ds], then whitespace, then a unit, then anything. *)
Definition size_match (s ds : pystr) : Prop :=
  ds <> [] /\ forallb isdigit ds = true /\
  exists ws rest,
    forallb isspace ws = true /\
    (s = ds ++ ws ++ py "ml" ++ rest \/ s = ds ++ ws ++ py "مل" ++ rest).

(** The pattern matches somewhere in [s]. *)
Definition size_occurs (s : pystr) : Prop :=
  exists pre post ds, s = pre ++ post /\ size_match post ds.

End Notions.

(** [score] is the highest score of [query] against the candidates. *)
Definition best_score (W : pystr -> pystr -> Q) (query : pystr)
    (cands : list Product) (score : Q) : Prop :=
  (exists c, In c cands /\ W query (p_fp c) = score) /\
  (forall c, In c cands -> Qle (W query (p_fp c)) score).

(** The keys of a list of records: which merchant product, which
    competitor. *)
Definition record_key (r : MatchRecord) : pystr * pystr :=
  (m_my_name r, m_competitor r).

(** The records of one merchant product against one file of competitor
    products: none or one. *)
Definition match_pair (W : pystr -> pystr -> Q)
    (min_score : Z) (comp_name : pystr) (comp_products : list Product)
    (my_p : Product) : list MatchRecord :=
  match_step W comp_name comp_products min_score [] my_p.

(** A competitor file as the engine reads it: its label and its
    products. *)
Definition load_file {U : Unicode} {B : Builtins} (cf : File)
    : option (pystr * list Product) :=
  option_map (fun ps => (rsplit_dot_head (f_name cf), ps))
             (_load_products (f_table cf)).

(** The records of all the merchant's products against one competitor
    file, in the order of the products. *)
Definition file_matches (W : pystr -> pystr -> Q) (min_score : Z)
    (my_products : list Product) (cp : pystr * list Product) : list MatchRecord :=
  flat_map (match_pair W min_score (fst cp) (snd cp)) my_products.

(** The order the specification describes: the records of an earlier
    merchant product all come before the records of a later one. The
    merchant products are told apart by their names. *)
Definition merchant_major (my_names : list pystr) (out : list MatchRecord) : Prop :=
  forall i j r1 r2 a b,
    nth_error out i = Some r1 -> nth_error out j = Some r2 ->
    nth_error my_names a = Some (m_my_name r1) ->
    nth_error my_names b = Some (m_my_name r2) ->
    (a < b)%nat -> (i < j)%nat.

(** [x >= 0] *)
Definition float_nonneg (x : pyfloat) : bool :=
  match x with
  | Finite q => Qle_bool 0 q
  | Inf n => negb n
  | NaN => false
  end.

(* ================================================================== *)
(** * Tables and products of the examples *)
(* ================================================================== *)

(** A scorer for the examples: it is [fuzz.WRatio] on the pairs they
    score, a non-empty string against itself, which scores 100. *)
Definition same_ratio (a b : pystr) : Q :=
  if str_eqb a b then 100 else 0.

Definition name_price_table (l : list (string * Z)) : DataFrame :=
  {| columns := [VStr (py "name"); VStr (py "price")];
     rows := map (fun np => [VStr (py (fst np)); VInt (snd np)]) l |}.

Definition shop_file : File :=
  {| f_name := py "my_shop.csv";
     f_table := name_price_table
       [("Dior Sauvage 100ml", 300); ("Chanel Bleu 50ml", 200)]%string%Z |}.

Definition rival_files : list File :=
  [ {| f_name := py "rival_x.csv";
       f_table := name_price_table
         [("Dior Sauvage 100ml", 320); ("Chanel Bleu 50ml", 190)]%string%Z |};
    {| f_name := py "rival_y.csv";
       f_table := name_price_table
         [("Dior Sauvage 100ml", 300); ("Chanel Bleu 50ml", 210)]%string%Z |} ].

Definition negative_price_table : DataFrame :=
  name_price_table [("Dior Sauvage 100ml", -5)]%string%Z.

Definition dior_100 : Product :=
  {| p_name := py "Dior Sauvage 100ml"; p_price := Finite 300;
     p_type := TRetail; p_size := 100; p_fp := py "dior sauvage" |}.

Definition rival_products : list Product :=
  [ {| p_name := py "Dior Sauvage Tester 100ml"; p_price := Finite 250;
       p_type := TTester; p_size := 100; p_fp := py "dior sauvage tester" |};
    {| p_name := py "Dior Sauvage 50ml"; p_price := Finite 180;
       p_type := TRetail; p_size := 50; p_fp := py "dior sauvage" |};
    {| p_name := py "Sauvage Dior 100 ml"; p_price := Finite 320;
       p_type := TRetail; p_size := 100; p_fp := py "dior sauvage" |} ].

(** The characters the string rendering of a number, of a truth value,
    of a date or of [None] is written with. *)
Definition plain_chars : pystr :=
  Eval vm_compute in numeral_chars ++ date_chars ++ py "infaNoTruFls".

(** Names whose size is written with 4301 digits: ones, and zeros before
    a blank. *)
Definition long_size_name : pyval :=
  VStr (repeat 49%N (N.to_nat 4301) ++ py "ml").

Definition zero_padded_name : pyval :=
  VStr (py "Oud " ++ repeat 48%N (N.to_nat 4301) ++ py " ml").

(** A table whose name cells are a missing cell and a number. *)
Definition missing_name_table : DataFrame :=
  {| columns := [VStr (py "name"); VStr (py "price")];
     rows := [[VFloat NaN; VInt 120]; [VInt 7; VInt 80]] |}.

(** A transformation of text that leaves the whitespace where it is and
    works on each side of it separately. *)
Definition ws_transparent (g : pystr -> pystr) : Prop :=
  g [] = [] /\
  (forall a c b, isspace c = true -> g (a ++ c :: b) = g a ++ c :: g b) /\
  (forall t, forallb nonspace t = true -> forallb nonspace (g t) = true).

(** What holds of every character of a fingerprint: it is a character
    of lowercased text, no alif or teh variant, a word character or
    whitespace, and no digit. *)
Definition fp_char {U : Unicode} (c : codepoint) : Prop :=
  (exists s, In c (lower s)) /\
  norm_alif c = c /\ norm_teh c = c /\
  isword c || isspace c = true /\
  isdigit c = false.

(** A token: not empty, and without whitespace. *)
Definition token (t : pystr) : Prop := t <> [] /\ forallb nonspace t = true.

(** The text holds none of the noise words. *)
Definition noise_free (t : pystr) : Prop :=
  forall w, In w NOISE -> contains w t = false.

(** The number of characters of a text that are not whitespace. *)
Definition weight (s : pystr) : nat := List.length (filter nonspace s).

(* ================================================================== *)
(** * Notions for the column guess and for the loaded products *)
(* ================================================================== *)

(** The header at position [i] satisfies [f] once lowercased. *)
Definition header_at {U : Unicode} {B : Builtins} (f : pystr -> bool)
    (cols : list pyval) (i : nat) : Prop :=
  exists c, nth_error cols i = Some c /\ f (lower (py_str c)) = true.

(** The position of the last header that satisfies [f]. *)
Fixpoint last_header {U : Unicode} {B : Builtins} (f : pystr -> bool)
    (cols : list pyval) : option nat :=
  match cols with
  | [] => None
  | c :: tl =>
    match last_header f tl with
    | Some j => Some (S j)
    | None => if f (lower (py_str c)) then Some O else None
    end
  end.

(** The row gives a product: its name is not rejected and [float] reads
    its price cell. *)
Definition row_kept {U : Unicode} {B : Builtins} (n p : nat) (row : list pyval) : bool :=
  negb (any_in REJECTED (lower (py_str (cell row n)))) &&
  match py_float (cell row p) with Value _ => true | _ => false end.

(** [str] writes the cell: an [int] of more than 4300 digits it does
    not. *)
Definition str_writes (v : pyval) : Prop :=
  match v with
  | VInt z => (Z.abs z < 10 ^ INT_MAX_STR_DIGITS)%Z
  | _ => True
  end.

(** What a row adds to the products; nothing when its turn raises. *)
Definition row_products {U : Unicode} {B : Builtins} (n p : nat) (row : list pyval)
    : list Product :=
  match load_row n p [] row with
  | Some part => part
  | None => []
  end.

(** The turn of a row returns. *)
Definition row_loads {U : Unicode} {B : Builtins} (n p : nat) (row : list pyval) : Prop :=
  load_row n p [] row <> None.

(** The turn of a row raises: its name is not rejected and either its
    size is written with more than 4300 digits (the [ValueError] of
    [int]) or its price cell is an [int] beyond the range of [float] (the
    [OverflowError]). *)
Definition row_raises {U : Unicode} {B : Builtins} (n p : nat) (row : list pyval) : Prop :=
  let low := lower (py_str (cell row n)) in
  any_in REJECTED low = false /\
  ((exists ds, re_search_size low = Some ds /\
               (INT_MAX_STR_DIGITS < Z.of_nat (List.length ds))%Z) \/
   py_float (cell row p) = Overflow).

(** Loading the table raises: it has no column (the [IndexError] of
    [cols[0]]), or the turn of one of its rows raises. *)
Definition table_raises {U : Unicode} {B : Builtins} (df : DataFrame) : Prop :=
  columns df = [] \/
  exists n p row,
    _guess_columns df = Some (n, p) /\ In row (rows df) /\ row_raises n p row.

(** Every finite binary64 value is a multiple of [2^-1074]. *)
Definition binary64_grid (x : pyfloat) : Prop :=
  match x with
  | Finite q => exists j : Z, q == inject_Z j * pow2 (-1074)
  | _ => True
  end.

(** [a < b] on floats. *)
Definition float_ltb (a b : pyfloat) : bool :=
  match a, b with
  | NaN, _ | _, NaN => false
  | Finite x, Finite y => Qlt_bool x y
  | Finite _, Inf n => negb n
  | Inf n, Finite _ => n
  | Inf n, Inf m => n && negb m
  end.

(** A table with more columns than a name and a price. *)
Definition catalogue_table : DataFrame :=
  {| columns := [VStr (py "SKU"); VStr (py "Product Name"); VStr (py "Old Price");
                 VStr (py "Price"); VStr (py "Stock")];
     rows := [[VInt 11; VStr (py "Dior Sauvage 100ml"); VInt 350; VInt 300; VInt 4];
              [VInt 12; VStr (py "Dior Sample 2ml"); VInt 20; VInt 15; VInt 9];
              [VInt 13; VStr (py "Chanel Bleu 50ml"); VInt 250; VNone; VInt 0];
              [VInt 14; VStr (py "Chanel Bleu Tester 50ml"); VInt 210; VInt 200; VInt 1]] |}.

(** Every product of a loaded table has a size that is not negative. *)
Definition forall_products_ok (loaded : option (list Product)) : Prop :=
  match loaded with
  | Some products => Forall (fun r => (0 <= p_size r)%Z) products
  | None => True
  end.

(** Two candidates with the same fingerprint, and one of another size. *)
Definition twin_products : list Product :=
  [ {| p_name := py "Dior Sauvage 50ml"; p_price := Finite 180;
       p_type := TRetail; p_size := 50; p_fp := py "dior sauvage" |};
    {| p_name := py "Sauvage Dior 100 ml"; p_price := Finite 320;
       p_type := TRetail; p_size := 100; p_fp := py "dior sauvage" |};
    {| p_name := py "Dior Sauvage 100ml"; p_price := Finite 310;
       p_type := TRetail; p_size := 100; p_fp := py "dior sauvage" |} ].

(** Competitor files named with two dots and with none. *)
Definition dotted_files : list File :=
  [ {| f_name := py "rival.2024.csv";
       f_table := name_price_table [("Dior Sauvage 100ml", 320)]%string%Z |};
    {| f_name := py "rival";
       f_table := name_price_table [("Dior Sauvage 100ml", 290)]%string%Z |} ].

(** Competitor files of which the second has a name that cannot be
    classified. *)
Definition broken_files : list File :=
  [ {| f_name := py "rival_x.csv";
       f_table := name_price_table [("Dior Sauvage 100ml", 320)]%string%Z |};
    {| f_name := py "rival_z.csv";
       f_table := {| columns := [VStr (py "name"); VStr (py "price")];
                     rows := [[long_size_name; VInt 5]] |} |} ].

(** The order of Python on strings, as a relation. *)
Definition str_le (a b : pystr) : Prop := str_leb a b = true.

(* ================================================================== *)
(** * The final table *)
(* ================================================================== *)

(** A dict: its items in the order of insertion, the keys distinct. *)
Definition pydict := list (pystr * pyval).

Fixpoint dict_get (d : pydict) (k : pystr) : option pyval :=
  match d with
  | [] => None
  | (k', v) :: tl => if str_eqb k' k then Some v else dict_get tl k
  end.

(** The dict [run_full_analysis] appends for a match. *)
Definition match_dict (r : MatchRecord) : pydict :=
  [ (py "اسم_منتجي", VStr (m_my_name r));
    (py "نوع_المنتج", VStr (ptype_label (m_my_type r)));
    (py "سعري", VFloat (m_my_price r));
    (py "المنافس", VStr (m_competitor r));
    (py "منتج_المنافس", VStr (m_comp_product r));
    (py "سعر_المنافس", VFloat (m_comp_price r));
    (py "الحجم_مل", VInt (m_size r));
    (py "الفرق", VFloat (m_diff r));
    (py "القرار", VStr (decision_label (m_decision r)));
    (py "نسبة_التطابق", VInt (m_score r)) ].

(** [pd.DataFrame(dicts)]: the columns are the keys in the order they
    are first met, a row holds the values of a dict, [NaN] where the dict
    has no such key. *)
Definition add_keys (seen ks : list pystr) : list pystr :=
  fold_left (fun seen k => if existsb (str_eqb k) seen then seen else seen ++ [k])
            ks seen.

Definition frame_columns (ds : list pydict) : list pystr :=
  fold_left (fun seen d => add_keys seen (map fst d)) ds [].

Definition frame_of_dicts (ds : list pydict) : DataFrame :=
  let cols := frame_columns ds in
  {| columns := map VStr cols;
     rows := map (fun d => map (fun k => match dict_get d k with
                                         | Some v => v
                                         | None => VFloat NaN
                                         end) cols) ds |}.

(** [c in df.columns] and the position of the column labelled [c]. *)
Definition is_label (k : pystr) (c : pyval) : bool :=
  match c with
  | VStr s => str_eqb s k
  | _ => false
  end.

Definition has_column (df : DataFrame) (k : pystr) : bool :=
  existsb (is_label k) (columns df).

Fixpoint label_index (cols : list pyval) (k : pystr) : nat :=
  match cols with
  | [] => O
  | c :: tl => if is_label k c then O else S (label_index tl k)
  end.

(** [df[ks]] for labels that are columns of [df]. *)
Definition select_columns (ks : list pystr) (df : DataFrame) : DataFrame :=
  {| columns := map VStr ks;
     rows := map (fun row => map (fun k => cell row (label_index (columns df) k)) ks)
                 (rows df) |}.

Definition MASTER_COLS : list pystr :=
  Eval vm_compute in map py
    ["اسم_منتجي"; "نوع_المنتج"; "سعري";
     "المنافس"; "منتج_المنافس"; "سعر_المنافس";
     "الحجم_مل"; "الفرق"; "القرار";
     "نسبة_التطابق"]%string.

Definition build_master_dataframe (matches : list pydict) : DataFrame :=
  let df := frame_of_dicts matches in
  select_columns (filter (has_column df) MASTER_COLS) df.

(** The values of a match, in the order of the columns. *)
Definition match_row (r : MatchRecord) : list pyval := map snd (match_dict r).

(* ================================================================== *)
(** * The application around the engine *)
(* ================================================================== *)

(** What pressing the button of [app.py] leads to: one of the two error
    messages for a missing file, the error message of an exception, the
    warning that nothing matched, or the table that is stored. *)
Inductive outcome :=
| NoMerchantFile
| NoCompetitorFile
| Crashed
| NoMatch
| Stored (master_df : DataFrame).

Definition process {U : Unicode} {B : Builtins} (W : pystr -> pystr -> Q)
    (my_file : option File) (comp_files : list File) (min_score : Z) : outcome :=
  match my_file with
  | None => NoMerchantFile
  | Some f =>
    match comp_files with
    | [] => NoCompetitorFile
    | _ =>
      match run_full_analysis W f comp_files min_score with
      | None => Crashed
      | Some [] => NoMatch
      | Some matches => Stored (build_master_dataframe (map match_dict matches))
      end
    end
  end.

(** [len(df[df[label] == value])] *)
Definition count_where (df : DataFrame) (label value : pystr) : nat :=
  List.length
    (filter (fun row => is_label value (cell row (label_index (columns df) label)))
            (rows df)).

(* ================================================================== *)
(** * Substrings: basic facts *)
(* ================================================================== *)

Lemma starts_with_iff (p s : pystr) :
  starts_with p s = true <-> exists r, s = p ++ r.
Proof.
  revert s; induction p as [|x p IH]; intros s; simpl.
  - split; [intros _; now exists s | reflexivity].
  - destruct s as [|y s].
    + split; [discriminate | intros [r Hr]; discriminate].
    + rewrite andb_true_iff, N.eqb_eq, IH. split.
      * intros [-> [r ->]]. now exists r.
      * intros [r Hr]. injection Hr as -> ->. split; [easy | now exists r].
Qed.

Lemma contains_iff (k s : pystr) :
  contains k s = true <-> exists pre post, s = pre ++ k ++ post.
Proof.
  induction s as [|c s IH]; simpl.
  - rewrite orb_false_r, starts_with_iff. split.
    + intros [r Hr]. now exists [], r.
    + intros [pre [post H]]. destruct pre; [now exists post | discriminate].
  - rewrite orb_true_iff, starts_with_iff, IH. split.
    + intros [[r Hr] | [pre [post H]]].
      * now exists [], r.
      * exists (c :: pre), post. now rewrite H.
    + intros [[|d pre] [post H]].
      * left. now exists post.
      * right. injection H as -> ->. now exists pre, post.
Qed.

Lemma any_in_iff (ks : list pystr) (s : pystr) :
  any_in ks s = true <-> exists k, In k ks /\ contains k s = true.
Proof. unfold any_in. apply existsb_exists. Qed.

Lemma py_str_idem {B : Builtins} (v : pyval) : py_str (VStr (py_str v)) = py_str v.
Proof. reflexivity. Qed.

(* ================================================================== *)
(** * Classifier *)
(* ================================================================== *)

Section ClassifierFacts.
Context {U : Unicode} {B : Builtins}.

Lemma classify_rejected (name : pyval) :
  any_in REJECTED (lower (py_str name)) = true ->
  _classify name = Some (TRejected, 0%Z, true).
Proof. intros H. unfold _classify. now rewrite H. Qed.

Lemma classify_accepted (name : pyval) (size : Z) :
  any_in REJECTED (lower (py_str name)) = false ->
  extract_size (lower (py_str name)) = Some size ->
  _classify name = Some (classify_type (lower (py_str name)), size, false).
Proof. intros H E. unfold _classify. now rewrite H, E. Qed.

Lemma classify_raises (name : pyval) :
  any_in REJECTED (lower (py_str name)) = false ->
  extract_size (lower (py_str name)) = None ->
  _classify name = None.
Proof. intros H E. unfold _classify. now rewrite H, E. Qed.

Lemma int_of_digits_some (ds : pystr) :
  (Z.of_nat (List.length ds) <= INT_MAX_STR_DIGITS)%Z ->
  int_of_digits ds = Some (digits_number ds).
Proof.
  intros H. unfold int_of_digits.
  destruct (Z.leb_spec (Z.of_nat (List.length ds)) INT_MAX_STR_DIGITS); [reflexivity | lia].
Qed.

Lemma int_of_digits_none (ds : pystr) :
  (INT_MAX_STR_DIGITS < Z.of_nat (List.length ds))%Z ->
  int_of_digits ds = None.
Proof.
  intros H. unfold int_of_digits.
  destruct (Z.leb_spec (Z.of_nat (List.length ds)) INT_MAX_STR_DIGITS); [lia | reflexivity].
Qed.

Lemma int_of_digits_value (ds : pystr) (z : Z) :
  int_of_digits ds = Some z -> z = digits_number ds.
Proof.
  unfold int_of_digits.
  destruct (Z.of_nat (List.length ds) <=? INT_MAX_STR_DIGITS)%Z; congruence.
Qed.

(** The size is read when its digits are few enough. *)
Lemma extract_size_some (low : pystr) :
  (forall ds, re_search_size low = Some ds ->
              (Z.of_nat (List.length ds) <= INT_MAX_STR_DIGITS)%Z) ->
  exists size, extract_size low = Some size.
Proof.
  intros H. unfold extract_size.
  destruct (re_search_size low) as [ds|]; [|now exists 0%Z].
  exists (digits_number ds). apply int_of_digits_some. now apply H.
Qed.

End ClassifierFacts.

(* ================================================================== *)
(** * Loops that append *)
(* ================================================================== *)

(** A loop whose turns only append to the list it builds yields the
    turns' contributions, in order. *)
Lemma fold_left_append {A X : Type} (step : list X -> A -> list X) (l : list A) :
  (forall acc a, step acc a = acc ++ step [] a) ->
  forall acc, fold_left step l acc = acc ++ flat_map (step []) l.
Proof.
  intros Hstep. induction l as [|a l IH]; intros acc; simpl.
  - now rewrite app_nil_r.
  - rewrite IH, Hstep, app_assoc. reflexivity.
Qed.

(* ================================================================== *)
(** * Product loader *)
(* ================================================================== *)

Section LoaderFacts.
Context {U : Unicode} {B : Builtins}.

Lemma load_row_append (n p : nat) (acc : list Product) (row : list pyval) :
  load_row n p acc row = option_map (app acc) (load_row n p [] row).
Proof.
  unfold load_row.
  destruct (_classify (VStr (py_str (cell row n)))) as [[[t sz] [|]]|]; cbn.
  - now rewrite app_nil_r.
  - destruct (py_float (cell row p)); cbn; [reflexivity | now rewrite app_nil_r | reflexivity].
  - reflexivity.
Qed.

(** What one row contributes, and when its turn raises. *)
Lemma load_row_spec (n p : nat) (row : list pyval) :
  let raw := py_str (cell row n) in
  load_row n p [] row =
    if any_in REJECTED (lower raw) then Some []
    else match extract_size (lower raw) with
         | None => None
         | Some size =>
           match py_float (cell row p) with
           | Overflow => None
           | Refused => Some []
           | Value price =>
             Some [{| p_name := raw; p_price := price;
                      p_type := classify_type (lower raw);
                      p_size := size;
                      p_fp := _fingerprint (VStr raw) |}]
           end
         end.
Proof.
  intros raw. unfold load_row. fold raw.
  unfold _classify. cbn [py_str]. fold raw.
  destruct (any_in REJECTED (lower raw)); [reflexivity|].
  destruct (extract_size (lower raw)); reflexivity.
Qed.

Lemma row_products_spec (n p : nat) (row : list pyval) :
  let raw := py_str (cell row n) in
  row_products n p row =
    if any_in REJECTED (lower raw) then []
    else match extract_size (lower raw), py_float (cell row p) with
         | Some size, Value price =>
           [{| p_name := raw; p_price := price;
               p_type := classify_type (lower raw);
               p_size := size;
               p_fp := _fingerprint (VStr raw) |}]
         | _, _ => []
         end.
Proof.
  intros raw. unfold row_products. rewrite load_row_spec. fold raw.
  destruct (any_in REJECTED (lower raw)); [reflexivity|].
  destruct (extract_size (lower raw)); [|reflexivity].
  destruct (py_float (cell row p)); reflexivity.
Qed.

Lemma load_loop_none (n p : nat) (rows : list (list pyval)) :
  fold_left (fun acc row => match acc with
                            | Some products => load_row n p products row
                            | None => None
                            end) rows None = None.
Proof. induction rows as [|row rows IH]; [reflexivity | exact IH]. Qed.

Lemma load_loop (n p : nat) (rows : list (list pyval)) (acc : list Product) :
  fold_left (fun acc row => match acc with
                            | Some products => load_row n p products row
                            | None => None
                            end) rows (Some acc)
  = option_map (app acc) (load_rows n p rows).
Proof.
  unfold load_rows. revert acc.
  induction rows as [|row rows IH]; intros acc; cbn [fold_left].
  - cbn. now rewrite app_nil_r.
  - rewrite (load_row_append n p acc row).
    destruct (load_row n p [] row) as [part|]; cbn [option_map].
    + rewrite (IH (acc ++ part)), (IH part).
      destruct (fold_left _ rows (Some [])) as [rest|]; cbn; [|reflexivity].
      now rewrite app_assoc.
    + now rewrite load_loop_none.
Qed.

Lemma load_rows_cons (n p : nat) (row : list pyval) (rows : list (list pyval)) :
  load_rows n p (row :: rows) =
    match load_row n p [] row with
    | Some part => option_map (app part) (load_rows n p rows)
    | None => None
    end.
Proof.
  unfold load_rows at 1. cbn [fold_left].
  destruct (load_row n p [] row) as [part|].
  - apply load_loop.
  - apply load_loop_none.
Qed.

(** The loop returns when every turn does, and then with the turns'
    contributions in order. *)
Lemma load_rows_some (n p : nat) (rows : list (list pyval)) (products : list Product) :
  load_rows n p rows = Some products <->
  Forall (row_loads n p) rows /\ products = flat_map (row_products n p) rows.
Proof.
  revert products. induction rows as [|row rows IH]; intros products.
  - cbn. split.
    + intros [= <-]. now split.
    + intros [_ ->]. reflexivity.
  - rewrite load_rows_cons, Forall_cons_iff. cbn [flat_map].
    unfold row_loads at 1. unfold row_products at 1.
    destruct (load_row n p [] row) as [part|] eqn:E.
    + destruct (load_rows n p rows) as [rest|] eqn:R; cbn [option_map].
      * destruct (proj1 (IH rest) eq_refl) as [Hall ->]. split.
        -- intros [= <-]. split; [|reflexivity]. split; [discriminate | exact Hall].
        -- intros [_ ->]. reflexivity.
      * split; [discriminate|]. intros [[_ Hall] _].
        pose proof (proj2 (IH (flat_map (row_products n p) rows)) (conj Hall eq_refl)).
        congruence.
    + split; [discriminate|]. intros [[Hrow _] _]. now elim Hrow.
Qed.

Lemma load_rows_none (n p : nat) (rows : list (list pyval)) :
  load_rows n p rows = None <->
  exists row, In row rows /\ load_row n p [] row = None.
Proof.
  induction rows as [|row rows IH].
  - cbn. split; [discriminate | now intros [row [[] _]]].
  - rewrite load_rows_cons.
    destruct (load_row n p [] row) as [part|] eqn:E.
    + destruct (load_rows n p rows) as [rest|]; cbn [option_map].
      * split; [discriminate|]. intros [r [[<-|Hin] Hr]]; [congruence|].
        assert (X : Some rest = None) by (apply (proj2 IH); now exists r).
        discriminate.
      * split; [|reflexivity]. intros _.
        destruct (proj1 IH eq_refl) as [r [Hin Hr]]. exists r. split; [now right | exact Hr].
    + split; [|reflexivity]. intros _. exists row. split; [now left | exact E].
Qed.

Lemma load_products_rows (df : DataFrame) (n p : nat) (products : list Product) :
  _guess_columns df = Some (n, p) ->
  _load_products df = Some products ->
  products = flat_map (row_products n p) (rows df).
Proof.
  intros H Hload. unfold _load_products in Hload. rewrite H in Hload.
  now apply load_rows_some in Hload.
Qed.

Lemma load_products_columns (df : DataFrame) (products : list Product) :
  _load_products df = Some products ->
  exists n p, _guess_columns df = Some (n, p).
Proof.
  unfold _load_products. destruct (_guess_columns df) as [[n p]|]; [|discriminate].
  intros _. now exists n, p.
Qed.

Lemma load_products_loads (df : DataFrame) (n p : nat) (products : list Product) :
  _guess_columns df = Some (n, p) ->
  _load_products df = Some products ->
  Forall (row_loads n p) (rows df).
Proof.
  intros H Hload. unfold _load_products in Hload. rewrite H in Hload.
  now apply load_rows_some in Hload.
Qed.

Lemma guess_columns_total (df : DataFrame) :
  columns df <> [] -> exists n p, _guess_columns df = Some (n, p).
Proof.
  intros H. unfold _guess_columns. destruct (columns df) as [|c cols]; [easy|].
  destruct (fold_left guess_step (c :: cols) _) as [[i n] p]. now exists n, p.
Qed.

Lemma guess_columns_none (df : DataFrame) :
  _guess_columns df = None <-> columns df = [].
Proof.
  unfold _guess_columns. destruct (columns df) as [|c cols]; [easy|].
  destruct (fold_left guess_step (c :: cols) _) as [[i n] p]. easy.
Qed.

End LoaderFacts.

(* ================================================================== *)
(** * Rejection and type priority *)
(* ================================================================== *)

(** C3. A name whose lowercased form contains a token of the rejection
    vocabulary, whatever stands before and after it, is classified as
    rejected with no type and size 0, the loader adds nothing for a row
    with this name, and no loaded product carries it. *)
Theorem rejected_name_veto (U : Unicode) (B : Builtins) (name : pyval)
    (k pre post : pystr) :
  In k REJECTED ->
  lower (py_str name) = pre ++ k ++ post ->
  _classify name = Some (TRejected, 0%Z, true) /\
  (forall n p products row,
      cell row n = name -> load_row n p products row = Some products) /\
  (forall df products r,
      _load_products df = Some products -> In r products ->
      p_name r <> py_str name).
Proof.
  intros Hk Hlow.
  assert (Hrej : any_in REJECTED (lower (py_str name)) = true).
  { apply any_in_iff. exists k. split; [exact Hk|].
    apply contains_iff. now exists pre, post. }
  split; [now apply classify_rejected|]. split.
  - intros n p products row Hcell.
    rewrite load_row_append, load_row_spec, Hcell, Hrej. cbn.
    now rewrite app_nil_r.
  - intros df products r Hload Hin Hname.
    destruct (load_products_columns df products Hload) as [n [p Hcols]].
    rewrite (load_products_rows df n p products Hcols Hload) in Hin.
    apply in_flat_map in Hin. destruct Hin as [row [_ Hr]].
    rewrite row_products_spec in Hr.
    destruct (any_in REJECTED (lower (py_str (cell row n)))) eqn:Hacc; [easy|].
    destruct (extract_size (lower (py_str (cell row n)))); [|easy].
    destruct (py_float (cell row p)); try easy.
    destruct Hr as [<-|[]]. simpl in Hname.
    rewrite Hname, Hrej in Hacc. discriminate.
Qed.

Lemma rejected_name_veto_witness :
  _classify (U := basic_unicode) (B := plain_builtins)
    (VStr (py "Free Sample 5ml")) = Some (TRejected, 0%Z, true).
Proof.
  refine (proj1 (@rejected_name_veto basic_unicode plain_builtins
            (VStr (py "Free Sample 5ml")) (py "sample") (py "free ") (py " 5ml")
            _ _)).
  - right. left. reflexivity.
  - reflexivity.
Defined.

(** C4. A name that is not rejected and whose size, if it has one, is
    written with at most 4300 digits gets exactly one type, the first in
    the order Set, Hair Mist, Body Mist, Tester whose vocabulary has a
    token in the lowercased name, and Retail when none has; a name with a
    Set token and a Tester token is a Set. *)
Theorem type_priority (U : Unicode) (B : Builtins) (name : pyval) :
  let low := lower (py_str name) in
  any_in REJECTED low = false ->
  (forall ds, re_search_size low = Some ds ->
              (Z.of_nat (List.length ds) <= INT_MAX_STR_DIGITS)%Z) ->
  exists t size,
    _classify name = Some (t, size, false) /\
    (any_in SET low = true -> t = TSet) /\
    (any_in SET low = false -> any_in HAIR_MIST low = true -> t = THairMist) /\
    (any_in SET low = false -> any_in HAIR_MIST low = false ->
     any_in BODY_MIST low = true -> t = TBodyMist) /\
    (any_in SET low = false -> any_in HAIR_MIST low = false ->
     any_in BODY_MIST low = false -> any_in TESTER low = true -> t = TTester) /\
    (any_in SET low = false -> any_in HAIR_MIST low = false ->
     any_in BODY_MIST low = false -> any_in TESTER low = false -> t = TRetail) /\
    t <> TRejected /\
    (any_in SET low = true -> any_in TESTER low = true -> t = TSet).
Proof.
  intros low Hok Hlen.
  destruct (extract_size_some low Hlen) as [size Hsize].
  exists (classify_type low), size.
  split; [now apply classify_accepted|].
  unfold classify_type.
  destruct (any_in SET low), (any_in HAIR_MIST low), (any_in BODY_MIST low),
    (any_in TESTER low); repeat split; intros; congruence.
Qed.

Lemma type_priority_witness :
  exists size,
    _classify (U := basic_unicode) (B := plain_builtins)
      (VStr (py "Tester Gift Set 100ml")) = Some (TSet, size, false).
Proof.
  assert (Hlen : forall ds,
    re_search_size (U := basic_unicode)
      (@lower basic_unicode (@py_str plain_builtins (VStr (py "Tester Gift Set 100ml")))) = Some ds ->
    (Z.of_nat (List.length ds) <= INT_MAX_STR_DIGITS)%Z).
  { intros ds H. vm_compute in H. injection H as <-. vm_compute. discriminate. }
  destruct (@type_priority basic_unicode plain_builtins
              (VStr (py "Tester Gift Set 100ml")) eq_refl Hlen)
    as [t [size [Hc [Hset _]]]].
  exists size. rewrite Hc, (Hset eq_refl). reflexivity.
Defined.

(** C4, as the specification words it, fails: a name that is not
    rejected, a unit after 4301 digits, gets no type at all, since reading
    its size raises. *)
Lemma type_priority_fails :
  any_in REJECTED
    (@lower basic_unicode (@py_str plain_builtins long_size_name)) = false /\
  _classify (U := basic_unicode) (B := plain_builtins) long_size_name = None.
Proof. split; vm_compute; reflexivity. Qed.

(* ================================================================== *)
(** * Strict matching *)
(* ================================================================== *)

Lemma str_eqb_eq (a b : pystr) : str_eqb a b = true <-> a = b.
Proof.
  revert b; induction a as [|x a IH]; intros [|y b]; simpl; try easy.
  rewrite andb_true_iff, N.eqb_eq, IH. split.
  - now intros [-> ->].
  - intros H. now injection H.
Qed.

Lemma Qlt_bool_iff (a b : Q) : Qlt_bool a b = true <-> (a < b)%Q.
Proof.
  unfold Qlt_bool. rewrite negb_true_iff. split.
  - intros H. apply Qnot_le_lt. intros Hle.
    apply Qle_bool_iff in Hle. congruence.
  - intros H. destruct (Qle_bool b a) eqn:E; [|reflexivity].
    apply Qle_bool_iff in E. exfalso. now apply (Qlt_not_le a b).
Qed.

Lemma Qlt_bool_false (a b : Q) : Qlt_bool a b = false <-> (b <= a)%Q.
Proof.
  unfold Qlt_bool. rewrite negb_false_iff. apply Qle_bool_iff.
Qed.

Lemma ptype_eqb_eq (a b : ptype) : ptype_eqb a b = true <-> a = b.
Proof. destruct a, b; simpl; split; congruence. Qed.

Section MatchingFacts.
Variable W : pystr -> pystr -> Q.

(** The scan of [extractOne], from a result already held. *)
Lemma extract_scan (q : pystr) (l : list pystr) :
  forall ch sc,
  exists ch' sc',
    fold_left (extract_step W q) l (Some (ch, sc)) = Some (ch', sc') /\
    (sc <= sc')%Q /\
    (forall c, In c l -> (W q c <= sc')%Q) /\
    ((ch' = ch /\ sc' = sc) \/ (In ch' l /\ sc' = W q ch')).
Proof.
  induction l as [|c l IH]; intros ch sc; simpl.
  - exists ch, sc. repeat split; [apply Qle_refl | easy | now left].
  - destruct (Qlt_bool sc (W q c)) eqn:E.
    + destruct (IH c (W q c)) as [ch' [sc' [Hf [Hle [Hmax Hsrc]]]]].
      exists ch', sc'. split; [exact Hf|]. apply Qlt_bool_iff in E. split.
      * apply Qle_trans with (W q c); [now apply Qlt_le_weak | exact Hle].
      * split.
        -- intros c' [<-|Hin]; [exact Hle | now apply Hmax].
        -- right. destruct Hsrc as [[-> ->]|[Hin ->]]; split; auto.
    + destruct (IH ch sc) as [ch' [sc' [Hf [Hle [Hmax Hsrc]]]]].
      exists ch', sc'. split; [exact Hf|]. apply Qlt_bool_false in E. split; [exact Hle|].
      split.
      * intros c' [<-|Hin]; [now apply Qle_trans with sc | now apply Hmax].
      * destruct Hsrc as [[-> ->]|[Hin ->]]; [now left | right; split; auto].
Qed.

(** [extractOne] returns a choice of highest score, with its score. *)
Lemma extractOne_best (q c : pystr) (l : list pystr) :
  exists ch,
    extractOne W q (c :: l) = Some (ch, W q ch) /\
    In ch (c :: l) /\
    forall c', In c' (c :: l) -> (W q c' <= W q ch)%Q.
Proof.
  unfold extractOne. simpl.
  destruct (extract_scan q l c (W q c)) as [ch' [sc' [Hf [Hle [Hmax Hsrc]]]]].
  exists ch'. rewrite Hf.
  assert (Hsc : sc' = W q ch') by (destruct Hsrc as [[-> ->]|[_ ->]]; reflexivity).
  subst sc'. split; [reflexivity|]. split.
  - destruct Hsrc as [[-> _]|[Hin _]]; [now left | now right].
  - intros c' [<-|Hin]; [exact Hle | now apply Hmax].
Qed.

Lemma candidates_of_In (comp_products : list Product) (my_p c : Product) :
  In c (candidates_of comp_products my_p) <->
  In c comp_products /\ p_type c = p_type my_p /\ p_size c = p_size my_p.
Proof.
  unfold candidates_of. rewrite filter_In, andb_true_iff, ptype_eqb_eq, Z.eqb_eq.
  tauto.
Qed.

(** The first candidate that has a given fingerprint of the candidates. *)
Lemma find_by_fp (cands : list Product) (choice : pystr) :
  In choice (map p_fp cands) ->
  exists best,
    find (fun c => str_eqb (p_fp c) choice) cands = Some best /\
    In best cands /\ p_fp best = choice.
Proof.
  intros Hin. apply in_map_iff in Hin. destruct Hin as [c [Hfp Hc]].
  destruct (find (fun c => str_eqb (p_fp c) choice) cands) as [best|] eqn:E.
  - exists best. split; [reflexivity|]. apply find_some in E.
    destruct E as [Hb Heq]. apply str_eqb_eq in Heq. now split.
  - exfalso. apply (find_none _ _ E) in Hc.
    apply str_eqb_eq in Hfp. congruence.
Qed.

Lemma match_step_append (comp_name : pystr) (comp_products : list Product)
    (min_score : Z) (acc : list MatchRecord) (my_p : Product) :
  match_step W comp_name comp_products min_score acc my_p =
  acc ++ match_pair W min_score comp_name comp_products my_p.
Proof.
  unfold match_pair, match_step.
  destruct (p_size my_p =? 0)%Z; [now rewrite app_nil_r|].
  destruct (candidates_of comp_products my_p) as [|c cs]; [now rewrite app_nil_r|].
  destruct (extractOne W (p_fp my_p) (map p_fp (c :: cs))) as [[choice score]|];
    [|now rewrite app_nil_r].
  destruct (Qlt_bool score (inject_Z min_score)); [now rewrite app_nil_r|].
  destruct (find _ (c :: cs)); [reflexivity | now rewrite app_nil_r].
Qed.

(** What one merchant product yields against one list of competitor
    products. *)
Lemma match_pair_spec (min_score : Z) (comp_name : pystr)
    (comp_products : list Product) (my_p : Product) :
  p_size my_p <> 0%Z ->
  candidates_of comp_products my_p <> [] ->
  exists best,
    In best (candidates_of comp_products my_p) /\
    (forall c, In c (candidates_of comp_products my_p) ->
       (W (p_fp my_p) (p_fp c) <= W (p_fp my_p) (p_fp best))%Q) /\
    match_pair W min_score comp_name comp_products my_p =
      if Qlt_bool (W (p_fp my_p) (p_fp best)) (inject_Z min_score) then []
      else
        let diff := float_sub (p_price best) (p_price my_p) in
        [{| m_my_name := p_name my_p;
            m_my_type := p_type my_p;
            m_my_price := p_price my_p;
            m_competitor := comp_name;
            m_comp_product := p_name best;
            m_comp_price := p_price best;
            m_size := p_size my_p;
            m_diff := round2 diff;
            m_decision := decide diff;
            m_score := round_half_even (W (p_fp my_p) (p_fp best)) |}].
Proof.
  intros Hsize Hcands. unfold match_pair, match_step.
  apply Z.eqb_neq in Hsize. rewrite Hsize.
  destruct (candidates_of comp_products my_p) as [|c cs] eqn:Ec; [easy|].
  change (map p_fp (c :: cs)) with (p_fp c :: map p_fp cs).
  destruct (extractOne_best (p_fp my_p) (p_fp c) (map p_fp cs))
    as [ch [Hex [Hin Hmax]]].
  rewrite Hex.
  destruct (find_by_fp (c :: cs) ch Hin) as [best [Hfind [Hbest Hfp]]].
  exists best. split; [exact Hbest|]. subst ch. split.
  - intros c' Hc'. apply Hmax. change (In (p_fp c') (map p_fp (c :: cs))).
    now apply in_map.
  - destruct (Qlt_bool (W (p_fp my_p) (p_fp best)) (inject_Z min_score));
      [reflexivity|].
    now rewrite Hfind.
Qed.

Lemma match_pair_size0 (min_score : Z) (comp_name : pystr)
    (comp_products : list Product) (my_p : Product) :
  p_size my_p = 0%Z ->
  match_pair W min_score comp_name comp_products my_p = [].
Proof.
  intros H. unfold match_pair, match_step. now rewrite H.
Qed.

Lemma match_pair_no_candidate (min_score : Z) (comp_name : pystr)
    (comp_products : list Product) (my_p : Product) :
  candidates_of comp_products my_p = [] ->
  match_pair W min_score comp_name comp_products my_p = [].
Proof.
  intros H. unfold match_pair, match_step. rewrite H.
  now destruct (p_size my_p =? 0)%Z.
Qed.

End MatchingFacts.

(* ================================================================== *)
(** * The whole run *)
(* ================================================================== *)

Section RunFacts.
Context {U : Unicode} {B : Builtins}.
Variable W : pystr -> pystr -> Q.

Lemma products_loop (min_score : Z) (cp : pystr * list Product)
    (my_products : list Product) (acc : list MatchRecord) :
  fold_left (match_step W (fst cp) (snd cp) min_score) my_products acc =
  acc ++ file_matches W min_score my_products cp.
Proof.
  unfold file_matches, match_pair.
  apply fold_left_append. intros a p. apply match_step_append.
Qed.

(** The loop over the competitor files, when every file loads. *)
Lemma files_loop (min_score : Z) (my_products : list Product) (cfs : list File) :
  forall comps acc,
  map load_file cfs = map Some comps ->
  fold_left (file_step W my_products min_score) cfs (Some acc) =
  Some (acc ++ flat_map (file_matches W min_score my_products) comps).
Proof.
  induction cfs as [|cf cfs IH]; intros [|cp comps] acc Hload; try discriminate.
  - simpl. now rewrite app_nil_r.
  - simpl in Hload. injection Hload as Hcf Hrest. simpl.
    unfold load_file in Hcf.
    destruct (_load_products (f_table cf)) as [ps|]; [|discriminate].
    simpl in Hcf. injection Hcf as <-.
    rewrite (products_loop min_score (rsplit_dot_head (f_name cf), ps)).
    rewrite (IH comps _ Hrest), app_assoc. reflexivity.
Qed.

Lemma files_loop_none (min_score : Z) (my_products : list Product) (cfs : list File) :
  fold_left (file_step W my_products min_score) cfs None = None.
Proof. induction cfs as [|cf cfs IH]; simpl; auto. Qed.

(** The loop over the competitor files returns only when every file
    loads. *)
Lemma files_loop_inv (min_score : Z) (my_products : list Product) (cfs : list File) :
  forall acc out,
  fold_left (file_step W my_products min_score) cfs (Some acc) = Some out ->
  exists comps, map load_file cfs = map Some comps.
Proof.
  induction cfs as [|cf cfs IH]; intros acc out H.
  - now exists [].
  - simpl in H. destruct (_load_products (f_table cf)) as [ps|] eqn:E.
    + apply IH in H. destruct H as [comps Hc].
      exists ((rsplit_dot_head (f_name cf), ps) :: comps). simpl.
      unfold load_file at 1. rewrite E. simpl. now rewrite Hc.
    + now rewrite files_loop_none in H.
Qed.

Lemma run_spec (my_file : File) (cfs : list File) (min_score : Z)
    (my_products : list Product) (comps : list (pystr * list Product)) :
  _load_products (f_table my_file) = Some my_products ->
  map load_file cfs = map Some comps ->
  run_full_analysis W my_file cfs min_score =
  Some (flat_map (file_matches W min_score my_products) comps).
Proof.
  intros Hmy Hcomps. unfold run_full_analysis. rewrite Hmy.
  now rewrite (files_loop min_score my_products cfs comps [] Hcomps).
Qed.

Lemma run_inv (my_file : File) (cfs : list File) (min_score : Z)
    (out : list MatchRecord) :
  run_full_analysis W my_file cfs min_score = Some out ->
  exists my_products comps,
    _load_products (f_table my_file) = Some my_products /\
    map load_file cfs = map Some comps /\
    out = flat_map (file_matches W min_score my_products) comps.
Proof.
  intros H. unfold run_full_analysis in H.
  destruct (_load_products (f_table my_file)) as [my_products|] eqn:Hmy;
    [|discriminate].
  destruct (files_loop_inv _ _ _ _ _ H) as [comps Hcomps].
  exists my_products, comps. split; [reflexivity|]. split; [exact Hcomps|].
  rewrite (files_loop min_score my_products cfs comps [] Hcomps) in H.
  now injection H as <-.
Qed.

Lemma load_file_In (cfs : list File) (comps : list (pystr * list Product))
    (cp : pystr * list Product) :
  map load_file cfs = map Some comps -> In cp comps ->
  exists cf, In cf cfs /\ fst cp = rsplit_dot_head (f_name cf) /\
             _load_products (f_table cf) = Some (snd cp).
Proof.
  revert comps. induction cfs as [|cf cfs IH]; intros [|cp' comps] H Hin;
    try discriminate; [easy|].
  simpl in H. injection H as Hcf Hrest. destruct Hin as [->|Hin].
  - exists cf. split; [now left|]. unfold load_file in Hcf.
    destruct (_load_products (f_table cf)); [|discriminate].
    simpl in Hcf. injection Hcf as <-. now split.
  - destruct (IH comps Hrest Hin) as [cf' [H1 H2]]. exists cf'. split; [now right | exact H2].
Qed.

End RunFacts.

(** C1. The candidates of a merchant product are exactly the competitor
    products of the same type and the same size; a merchant product of
    size 0 yields no record; and every record of a run carries a size
    other than 0 and the name and price of a competitor product of that
    very type and size, so a competitor product of size 0 is never
    matched. *)
Theorem strict_filter (U : Unicode) (B : Builtins) (W : pystr -> pystr -> Q) :
  (forall comp_products my_p c,
      In c (candidates_of comp_products my_p) <->
      In c comp_products /\ p_type c = p_type my_p /\ p_size c = p_size my_p) /\
  (forall min_score comp_name comp_products my_p,
      p_size my_p = 0%Z ->
      match_pair W min_score comp_name comp_products my_p = []) /\
  (forall my_file comp_files min_score out r,
      run_full_analysis W my_file comp_files min_score = Some out ->
      In r out ->
      m_size r <> 0%Z /\
      exists my_products my_p cf comp_products best,
        _load_products (f_table my_file) = Some my_products /\
        In my_p my_products /\
        In cf comp_files /\
        _load_products (f_table cf) = Some comp_products /\
        In best comp_products /\
        p_type best = p_type my_p /\ p_size best = p_size my_p /\
        p_size best <> 0%Z /\
        m_my_name r = p_name my_p /\ m_my_type r = p_type my_p /\
        m_size r = p_size my_p /\
        m_comp_product r = p_name best /\ m_comp_price r = p_price best).
Proof.
  split; [intros; apply candidates_of_In|].
  split; [intros; now apply match_pair_size0|].
  intros my_file comp_files min_score out r Hrun Hin.
  destruct (run_inv W _ _ _ _ Hrun) as [my_products [comps [Hmy [Hcomps ->]]]].
  apply in_flat_map in Hin. destruct Hin as [cp [Hcp Hin]].
  unfold file_matches in Hin.
  apply in_flat_map in Hin. destruct Hin as [my_p [Hp Hin]].
  destruct (load_file_In _ _ _ Hcomps Hcp) as [cf [Hcf [_ Hload]]].
  destruct (Z.eq_dec (p_size my_p) 0) as [Hz|Hnz].
  { now rewrite (match_pair_size0 W min_score (fst cp) (snd cp) my_p Hz) in Hin. }
  destruct (candidates_of (snd cp) my_p) as [|c0 cs] eqn:Ec.
  { now rewrite (match_pair_no_candidate W min_score (fst cp) (snd cp) my_p Ec) in Hin. }
  destruct (match_pair_spec W min_score (fst cp) (snd cp) my_p Hnz)
    as [best [Hbest [_ Heq]]]; [now rewrite Ec|].
  rewrite Heq in Hin.
  destruct (Qlt_bool _ _); [easy|].
  destruct Hin as [<-|[]]. simpl.
  apply candidates_of_In in Hbest. destruct Hbest as [Hb [Ht Hs]].
  split; [exact Hnz|].
  exists my_products, my_p, cf, (snd cp), best.
  repeat split; auto. congruence.
Qed.

(** The strict filter on the example of the specification: of a Tester of
    100 ml, a Retail of 50 ml and a Retail of 100 ml, only the last is a
    candidate for a Retail of 100 ml. *)
Example strict_filter_example :
  map p_name (candidates_of rival_products dior_100) = [py "Sauvage Dior 100 ml"].
Proof. reflexivity. Qed.

(** C6. For a merchant product of known size with candidates, a record
    is emitted exactly when the highest score among the candidates is at
    least [min_score]: a best score equal to [min_score] gives a record,
    one equal to [min_score - 1] gives none. *)
Theorem threshold_boundary (W : pystr -> pystr -> Q) (min_score : Z)
    (comp_name : pystr) (comp_products : list Product) (my_p : Product) (s : Q) :
  p_size my_p <> 0%Z ->
  candidates_of comp_products my_p <> [] ->
  best_score W (p_fp my_p) (candidates_of comp_products my_p) s ->
  (match_pair W min_score comp_name comp_products my_p <> [] <->
   (inject_Z min_score <= s)%Q) /\
  (List.length (match_pair W min_score comp_name comp_products my_p) <= 1)%nat /\
  (s == inject_Z min_score ->
   match_pair W min_score comp_name comp_products my_p <> [])%Q /\
  (s == inject_Z (min_score - 1) ->
   match_pair W min_score comp_name comp_products my_p = [])%Q.
Proof.
  intros Hsize Hcands [[c [Hc Hs]] Hmax].
  destruct (match_pair_spec W min_score comp_name comp_products my_p Hsize Hcands)
    as [best [Hbest [Hbmax Heq]]].
  assert (Hsb : (s == W (p_fp my_p) (p_fp best))%Q).
  { apply Qle_antisym; [rewrite <- Hs; now apply Hbmax | now apply Hmax]. }
  assert (Hiff : match_pair W min_score comp_name comp_products my_p <> [] <->
                 (inject_Z min_score <= s)%Q).
  { rewrite Heq. destruct (Qlt_bool _ _) eqn:E.
    - apply Qlt_bool_iff in E. split; [easy|]. intros Hle. exfalso.
      rewrite Hsb in Hle. now apply (Qlt_not_le _ _ E).
    - apply Qlt_bool_false in E. rewrite Hsb. split; [now intros _ | easy]. }
  split; [exact Hiff|]. split.
  - rewrite Heq. destruct (Qlt_bool _ _); simpl; lia.
  - split.
    + intros He. apply Hiff. rewrite He. apply Qle_refl.
    + intros He.
      destruct (match_pair W min_score comp_name comp_products my_p) eqn:Em;
        [reflexivity|].
      exfalso. assert (Hle : (inject_Z min_score <= s)%Q) by (apply Hiff; easy).
      rewrite He in Hle. rewrite <- Zle_Qle in Hle. lia.
Qed.

Lemma threshold_boundary_witness :
  match_pair same_ratio 100 (py "rival") rival_products dior_100 <> [] /\
  match_pair same_ratio 101 (py "rival") rival_products dior_100 = [].
Proof.
  assert (Hbest : best_score same_ratio (p_fp dior_100)
                    (candidates_of rival_products dior_100) 100).
  { split.
    - eexists. split; [left; reflexivity | reflexivity].
    - intros c [<-|[]]. vm_compute. discriminate. }
  split.
  - refine (proj1 (proj2 (proj2 (@threshold_boundary same_ratio 100 (py "rival")
              rival_products dior_100 100 _ _ Hbest))) _).
    + discriminate.
    + discriminate.
    + reflexivity.
  - refine (proj2 (proj2 (proj2 (@threshold_boundary same_ratio 101 (py "rival")
              rival_products dior_100 100 _ _ Hbest))) _).
    + discriminate.
    + discriminate.
    + reflexivity.
Defined.

(** C2, as the code has it. The records of a run come competitor file by
    competitor file, in the order of the files, and within one file in
    the order of the merchant's products: the output is the concatenation,
    over the files, of the records of each merchant product in turn. *)
Theorem file_major_order (U : Unicode) (B : Builtins) (W : pystr -> pystr -> Q)
    (my_file : File) (comp_files : list File) (min_score : Z)
    (my_products : list Product) (comps : list (pystr * list Product)) :
  _load_products (f_table my_file) = Some my_products ->
  map load_file comp_files = map Some comps ->
  run_full_analysis W my_file comp_files min_score =
  Some (flat_map
          (fun cp => flat_map (match_pair W min_score (fst cp) (snd cp)) my_products)
          comps).
Proof. intros Hmy Hcomps. now apply run_spec. Qed.

Lemma file_major_order_witness :
  option_map (map record_key)
    (run_full_analysis (U := basic_unicode) (B := plain_builtins)
       same_ratio shop_file rival_files 75) =
  Some [ (py "Dior Sauvage 100ml", py "rival_x"); (py "Chanel Bleu 50ml", py "rival_x");
         (py "Dior Sauvage 100ml", py "rival_y"); (py "Chanel Bleu 50ml", py "rival_y") ].
Proof.
  destruct (_load_products (U := basic_unicode) (B := plain_builtins)
              (f_table shop_file)) as [my_products|] eqn:Hmy; [|discriminate].
  rewrite (@file_major_order basic_unicode plain_builtins same_ratio shop_file
             rival_files 75 my_products
             [ (py "rival_x",
                flat_map (row_products (U := basic_unicode) (B := plain_builtins) 0 1)
                         (rows (f_table (nth 0 rival_files shop_file))));
               (py "rival_y",
                flat_map (row_products (U := basic_unicode) (B := plain_builtins) 0 1)
                         (rows (f_table (nth 1 rival_files shop_file)))) ]
             Hmy eq_refl).
  injection Hmy as <-. reflexivity.
Defined.

(** C2, as the specification words it, fails: with two merchant products
    and two competitor files that carry both, the record of the first
    product against the second file comes after the record of the second
    product against the first file. *)
Lemma merchant_major_fails :
  exists out,
    run_full_analysis (U := basic_unicode) (B := plain_builtins)
      same_ratio shop_file rival_files 75 = Some out /\
    map record_key out =
      [ (py "Dior Sauvage 100ml", py "rival_x"); (py "Chanel Bleu 50ml", py "rival_x");
        (py "Dior Sauvage 100ml", py "rival_y"); (py "Chanel Bleu 50ml", py "rival_y") ] /\
    ~ merchant_major [py "Dior Sauvage 100ml"; py "Chanel Bleu 50ml"] out.
Proof.
  destruct (run_full_analysis (U := basic_unicode) (B := plain_builtins)
              same_ratio shop_file rival_files 75) as [out|] eqn:Hrun;
    [|discriminate].
  exists out. split; [reflexivity|].
  vm_compute in Hrun. injection Hrun as <-.
  split; [reflexivity|].
  intros H.
  specialize (H 2%nat 1%nat _ _ 0%nat 1%nat eq_refl eq_refl eq_refl eq_refl).
  lia.
Qed.

(* ================================================================== *)
(** * Cells that are not text *)
(* ================================================================== *)

Lemma contains_chars (k s : pystr) (c : codepoint) :
  contains k s = true -> In c k -> In c s.
Proof.
  intros H Hc. apply contains_iff in H. destruct H as [pre [post ->]].
  apply in_or_app. right. apply in_or_app. now left.
Qed.

Lemma py_cons_ascii (a : ascii) (s : string) :
  (N_of_ascii a <? 128)%N = true ->
  py (String a s) = N_of_ascii a :: py s.
Proof. intros H. unfold py. simpl. now rewrite H. Qed.

Lemma uint_numeral (d : Decimal.uint) (c : codepoint) :
  In c (py (NilEmpty.string_of_uint d)) -> In c numeral_chars.
Proof.
  induction d; simpl NilEmpty.string_of_uint;
    [intros [] | rewrite py_cons_ascii by reflexivity;
                 (intros [<-|H]; [vm_compute; tauto | now apply IHd]) ..].
Qed.

Lemma str_of_int_numeral (z : Z) (c : codepoint) :
  In c (str_of_int z) -> In c numeral_chars.
Proof.
  unfold str_of_int, NilZero.string_of_int, NilZero.string_of_uint.
  destruct (Z.to_int z) as [d|d].
  - destruct d; try apply uint_numeral. vm_compute. tauto.
  - rewrite py_cons_ascii by reflexivity. intros [<-|H]; [vm_compute; tauto|].
    revert H. destruct d; try apply uint_numeral. vm_compute. tauto.
Qed.

Lemma numeral_plain (c : codepoint) : In c numeral_chars -> In c plain_chars.
Proof. vm_compute. tauto. Qed.

Lemma date_plain (c : codepoint) : In c date_chars -> In c plain_chars.
Proof. vm_compute. tauto. Qed.

(** No plain character is, or lowercases to, the letter m or the letter
    c, and all are Basic Latin. *)
Lemma plain_chars_facts (c : codepoint) :
  In c plain_chars ->
  basic c = true /\ ascii_lower c <> 109%N /\ ascii_lower c <> 99%N /\
  (ascii_lower c <? 128)%N = true.
Proof.
  unfold plain_chars. simpl.
  intros H. repeat (destruct H as [<-|H]; [vm_compute; repeat split; discriminate|]).
  destruct H.
Qed.

Section CellFacts.
Context {U : Unicode} {L : UnicodeLaws U} {B : Builtins} {BL : BuiltinsLaws B}.

Lemma py_str_plain (v : pyval) (c : codepoint) :
  (forall s, v <> VStr s) -> In c (py_str v) -> In c plain_chars.
Proof.
  intros Hv. destruct v as [s|z|[q|[|]|]|[|]|t|]; simpl.
  - now destruct (Hv s).
  - intros H. apply numeral_plain. now apply (str_of_int_numeral z).
  - intros H. apply numeral_plain. now apply (repr_finite_chars q).
  - vm_compute. tauto.
  - vm_compute. tauto.
  - vm_compute. tauto.
  - vm_compute. tauto.
  - vm_compute. tauto.
  - intros H. apply date_plain. now apply (str_date_chars t).
  - vm_compute. tauto.
Qed.

(** The lowercase of text written with plain characters. *)
Lemma plain_lower (s : pystr) :
  (forall c, In c s -> In c plain_chars) ->
  lower s = map ascii_lower s /\
  forall c, In c (lower s) -> c <> 109%N /\ c <> 99%N /\ (c <? 128)%N = true.
Proof.
  intros Hs.
  assert (Hb : forallb basic s = true).
  { apply forallb_forall. intros c Hc. now apply plain_chars_facts, Hs. }
  rewrite (lower_basic s Hb). split; [reflexivity|].
  intros c0 H0. apply in_map_iff in H0. destruct H0 as [c [<- Hin]].
  now apply plain_chars_facts, Hs.
Qed.

(** Text written with these characters only holds no rejection token. *)
Lemma plain_not_rejected (s : pystr) :
  (forall c, In c s -> In c plain_chars) ->
  any_in REJECTED (lower s) = false.
Proof.
  intros Hs. destruct (plain_lower s Hs) as [_ Hlow].
  destruct (any_in REJECTED (lower s)) eqn:E; [|reflexivity].
  exfalso. apply any_in_iff in E. destruct E as [k [Hk Hc]].
  assert (Hnot : forall c0, In c0 k -> In c0 (lower s))
    by (intros c0; now apply contains_chars).
  unfold REJECTED in Hk. simpl in Hk.
  destruct Hk as [<-|[<-|[<-|[<-|[]]]]].
  - destruct (Hlow 1593%N) as [_ [_ H]]; [apply Hnot; simpl; tauto | discriminate].
  - destruct (Hlow 109%N) as [H _]; [apply Hnot; simpl; tauto | now apply H].
  - destruct (Hlow 1578%N) as [_ [_ H]]; [apply Hnot; simpl; tauto | discriminate].
  - destruct (Hlow 99%N) as [_ [H _]]; [apply Hnot; simpl; tauto | now apply H].
Qed.

Lemma nonstring_not_rejected (v : pyval) :
  (forall s, v <> VStr s) -> any_in REJECTED (lower (py_str v)) = false.
Proof.
  intros Hv. apply plain_not_rejected. intros c. now apply py_str_plain.
Qed.

(** A size needs a unit, and a unit the letter m or the letter meem. *)
Lemma unit_here_chars (s : pystr) :
  unit_here s = true -> In 109%N s \/ In 1605%N s.
Proof.
  unfold unit_here. intros H. apply orb_true_iff in H.
  destruct H as [H|H]; apply starts_with_iff in H; destruct H as [r ->];
    [left | right]; now left.
Qed.

Lemma ws_unit_chars (s : pystr) :
  ws_unit s = true -> In 109%N s \/ In 1605%N s.
Proof.
  induction s as [|c tl IH]; [discriminate|].
  cbn [ws_unit]. intros H. apply orb_true_iff in H. destruct H as [H|H].
  - apply andb_true_iff in H. destruct H as [_ H].
    destruct (IH H); [left | right]; now right.
  - now apply unit_here_chars.
Qed.

Lemma size_here_chars (s ds : pystr) :
  size_here s = Some ds -> In 109%N s \/ In 1605%N s.
Proof.
  revert ds. induction s as [|c tl IH]; intros ds; [discriminate|].
  cbn [size_here]. destruct (isdigit c); [|discriminate].
  destruct (size_here tl) as [ds'|] eqn:E.
  - intros _. destruct (IH ds' eq_refl); [left | right]; now right.
  - destruct (ws_unit tl) eqn:W; [|discriminate]. intros _.
    destruct (ws_unit_chars tl W); [left | right]; now right.
Qed.

Lemma search_chars (s ds : pystr) :
  re_search_size s = Some ds -> In 109%N s \/ In 1605%N s.
Proof.
  revert ds. induction s as [|c tl IH]; intros ds.
  - discriminate.
  - cbn [re_search_size]. destruct (size_here (c :: tl)) as [ds'|] eqn:E.
    + intros _. now apply (size_here_chars _ ds').
    + intros H. destruct (IH ds H); [left | right]; now right.
Qed.

(** The rendering of what is not a string holds no size. *)
Lemma nonstring_no_size (v : pyval) :
  (forall s, v <> VStr s) -> extract_size (lower (py_str v)) = Some 0%Z.
Proof.
  intros Hv. unfold extract_size.
  destruct (re_search_size (lower (py_str v))) as [ds|] eqn:E; [|reflexivity].
  exfalso.
  destruct (plain_lower (py_str v)) as [_ Hlow];
    [intros c; now apply py_str_plain|].
  destruct (search_chars _ ds E) as [H|H]; apply Hlow in H.
  - now destruct H as [H _].
  - now destruct H as [_ [_ H]].
Qed.

(** The turn of a row whose name cell is not a string. *)
Lemma nonstring_row (n p : nat) (products : list Product) (row : list pyval) :
  (forall s, cell row n <> VStr s) ->
  load_row n p products row =
    match py_float (cell row p) with
    | Value price =>
      Some (products ++
            [{| p_name := py_str (cell row n);
                p_price := price;
                p_type := classify_type (lower (py_str (cell row n)));
                p_size := 0;
                p_fp := _fingerprint (VStr (py_str (cell row n))) |}])
    | Refused => Some products
    | Overflow => None
    end.
Proof.
  intros Hns. rewrite load_row_append, load_row_spec.
  rewrite (nonstring_not_rejected _ Hns), (nonstring_no_size _ Hns).
  destruct (py_float (cell row p)); cbn; [reflexivity | now rewrite app_nil_r | reflexivity].
Qed.

End CellFacts.

Lemma flat_map_In_intro {A X : Type} (f : A -> list X) (l : list A) (a : A) (x : X) :
  In a l -> In x (f a) -> In x (flat_map f l).
Proof. intros Ha Hx. apply in_flat_map. now exists a. Qed.

(** C5, as the code has it. Whenever the loader returns, its products are
    exactly the rows whose name is not rejected and whose price cell
    [float] reads, each with the value of that cell as its price, whatever
    its sign; and a row whose price cell [float] refuses, with a
    [ValueError] or a [TypeError], is passed over without a product and
    without an error. *)
Theorem loaded_price (U : Unicode) (B : Builtins) (df : DataFrame)
    (products : list Product) :
  _load_products df = Some products ->
  exists n p,
    _guess_columns df = Some (n, p) /\
    (forall r,
      In r products <->
      exists row price size,
        In row (rows df) /\
        any_in REJECTED (lower (py_str (cell row n))) = false /\
        extract_size (lower (py_str (cell row n))) = Some size /\
        py_float (cell row p) = Value price /\
        r = {| p_name := py_str (cell row n);
               p_price := price;
               p_type := classify_type (lower (py_str (cell row n)));
               p_size := size;
               p_fp := _fingerprint (VStr (py_str (cell row n))) |}) /\
    (forall row acc,
      In row (rows df) ->
      py_float (cell row p) = Refused ->
      load_row n p acc row = Some acc).
Proof.
  intros Hload. destruct (load_products_columns df products Hload) as [n [p Hg]].
  exists n, p. split; [exact Hg|].
  pose proof (load_products_loads df n p products Hg Hload) as Hall.
  rewrite (load_products_rows df n p products Hg Hload). split.
  - intros r. rewrite in_flat_map. split.
    + intros [row [Hrow Hr]]. rewrite row_products_spec in Hr.
      destruct (any_in REJECTED (lower (py_str (cell row n)))) eqn:Hrej; [easy|].
      destruct (extract_size (lower (py_str (cell row n)))) as [size|] eqn:Hs; [|easy].
      destruct (py_float (cell row p)) as [price| |] eqn:Hp; try easy.
      destruct Hr as [<-|[]]. now exists row, price, size.
    + intros [row [price [size [Hrow [Hrej [Hs [Hp ->]]]]]]].
      exists row. split; [exact Hrow|].
      rewrite row_products_spec, Hrej, Hs, Hp. now left.
  - intros row acc Hrow Hp.
    rewrite Forall_forall in Hall. specialize (Hall row Hrow).
    unfold row_loads in Hall. rewrite load_row_append.
    rewrite load_row_spec in Hall |- *. rewrite Hp in Hall |- *.
    destruct (any_in REJECTED (lower (py_str (cell row n)))); cbn.
    + now rewrite app_nil_r.
    + destruct (extract_size (lower (py_str (cell row n)))); cbn;
        [now rewrite app_nil_r | now elim Hall].
Qed.

Lemma loaded_price_witness :
  exists r,
    In r [ {| p_name := py "Dior Sauvage 100ml"; p_price := Finite (inject_Z (-5));
              p_type := TRetail; p_size := 100; p_fp := py "dior sauvage" |} ] /\
    exists row,
      In row (rows negative_price_table) /\
      @py_float plain_builtins (cell row 1) = Value (p_price r).
Proof.
  destruct (@loaded_price basic_unicode plain_builtins negative_price_table
              [ {| p_name := py "Dior Sauvage 100ml"; p_price := Finite (inject_Z (-5));
                   p_type := TRetail; p_size := 100; p_fp := py "dior sauvage" |} ]
              eq_refl)
    as [n [p [Hg [H _]]]].
  vm_compute in Hg. injection Hg as <- <-.
  eexists. split; [left; reflexivity|].
  destruct (proj1 (H _) (or_introl eq_refl))
    as [row [price [size [Hrow [_ [_ [Hp Hr]]]]]]].
  exists row. split; [exact Hrow|].
  rewrite Hp. now rewrite Hr.
Defined.

(** C5, as the specification words it, fails: a row with the price -5
    is loaded as a product of price -5. *)
Lemma negative_price_loaded :
  exists r,
    _load_products (U := basic_unicode) (B := plain_builtins)
      negative_price_table = Some [r] /\
    p_name r = py "Dior Sauvage 100ml" /\
    p_price r = Finite (inject_Z (-5)) /\
    float_nonneg (p_price r) = false.
Proof. eexists. repeat split. Qed.

(** C10. The loader renders every name cell as a string first, so the
    turn of a row whose name cell is not a string (a number, a truth
    value, a date, a missing cell, [None]) never fails on that cell: the
    rendering is classified, not rejected and without size, and
    fingerprinted, and the row gives a product when its price cell is read
    as a number, nothing when [float] refuses it, and raises only with the
    [OverflowError] of the price; so whenever the loader returns, every
    such row whose price is read has its product, named ["nan"] for a
    missing cell; and the fingerprint function itself returns the empty
    string on what is not a string. *)
Theorem name_cell_coerced (U : Unicode) (L : UnicodeLaws U)
    (B : Builtins) (BL : BuiltinsLaws B) :
  (forall n p products row,
      (forall s, cell row n <> VStr s) ->
      str_writes (cell row n) ->
      _classify (VStr (py_str (cell row n))) =
        Some (classify_type (lower (py_str (cell row n))), 0%Z, false) /\
      load_row n p products row =
        match py_float (cell row p) with
        | Value price =>
          Some (products ++
                [{| p_name := py_str (cell row n);
                    p_price := price;
                    p_type := classify_type (lower (py_str (cell row n)));
                    p_size := 0;
                    p_fp := _fingerprint (VStr (py_str (cell row n))) |}])
        | Refused => Some products
        | Overflow => None
        end) /\
  (forall df n p products row price,
      _guess_columns df = Some (n, p) ->
      _load_products df = Some products ->
      In row (rows df) ->
      (forall s, cell row n <> VStr s) ->
      py_float (cell row p) = Value price ->
      In {| p_name := py_str (cell row n);
            p_price := price;
            p_type := classify_type (lower (py_str (cell row n)));
            p_size := 0;
            p_fp := _fingerprint (VStr (py_str (cell row n))) |} products) /\
  (forall df n p products row price,
      _guess_columns df = Some (n, p) ->
      _load_products df = Some products ->
      In row (rows df) ->
      cell row n = VFloat NaN ->
      py_float (cell row p) = Value price ->
      exists r, In r products /\ p_name r = py "nan" /\ p_price r = price) /\
  (forall v, (forall s, v <> VStr s) -> _fingerprint v = []).
Proof.
  assert (Hrow : forall df n p products row price,
             _guess_columns df = Some (n, p) ->
             _load_products df = Some products ->
             In row (rows df) -> (forall s, cell row n <> VStr s) ->
             py_float (cell row p) = Value price ->
             In {| p_name := py_str (cell row n);
                   p_price := price;
                   p_type := classify_type (lower (py_str (cell row n)));
                   p_size := 0;
                   p_fp := _fingerprint (VStr (py_str (cell row n))) |} products).
  { intros df n p products row price Hg Hload Hin Hns Hp.
    rewrite (load_products_rows df n p products Hg Hload).
    apply (flat_map_In_intro _ _ row); [exact Hin|].
    unfold row_products. rewrite (nonstring_row n p [] row Hns), Hp. now left. }
  split; [|split; [exact Hrow | split]].
  - intros n p products row Hns _. split; [|now apply nonstring_row].
    apply (classify_accepted (VStr (py_str (cell row n)))); cbn [py_str].
    + now apply nonstring_not_rejected.
    + now apply nonstring_no_size.
  - intros df n p products row price Hg Hload Hin Hnan Hp.
    eexists. split; [apply (Hrow df n p products row price Hg Hload Hin)|].
    + rewrite Hnan. discriminate.
    + exact Hp.
    + simpl. rewrite Hnan. now split.
  - intros v Hv. destruct v; try reflexivity. now destruct (Hv s).
Qed.

(** The tables of the examples satisfy what is assumed of Python's. *)
Lemma ascii_lower_space (c : codepoint) : isspace c = true -> ascii_lower c = c.
Proof.
  unfold isspace, ascii_lower. intros H.
  destruct ((65 <=? c) && (c <=? 90))%N eqn:E; [|reflexivity].
  exfalso. apply andb_true_iff in E. destruct E as [E1 E2].
  apply N.leb_le in E1, E2.
  repeat (apply orb_true_iff in H; destruct H as [H|H]);
    repeat (apply andb_true_iff in H; destruct H as [H H']);
    try apply N.leb_le in H; try apply N.eqb_eq in H; try apply N.leb_le in H'; lia.
Qed.

Lemma ascii_lower_nonspace (c : codepoint) :
  isspace (ascii_lower c) = isspace c.
Proof.
  unfold ascii_lower.
  destruct ((65 <=? c) && (c <=? 90))%N eqn:E; [|reflexivity].
  apply andb_true_iff in E. destruct E as [E1 E2]. apply N.leb_le in E1, E2.
  unfold isspace.
  repeat match goal with
  | |- context [(?a <=? ?b)%N] => destruct (N.leb_spec a b); try lia
  | |- context [(?a =? ?b)%N] => destruct (N.eqb_spec a b); try lia
  end; reflexivity.
Qed.

Lemma ascii_lower_idem (c : codepoint) : ascii_lower (ascii_lower c) = ascii_lower c.
Proof.
  unfold ascii_lower.
  destruct ((65 <=? c) && (c <=? 90))%N eqn:E; [|now rewrite E].
  apply andb_true_iff in E. destruct E as [E1 E2]. apply N.leb_le in E1, E2.
  destruct (N.leb_spec 65 (c + 32)); destruct (N.leb_spec (c + 32) 90);
    simpl; try reflexivity; lia.
Qed.

Lemma basic_unicode_laws : UnicodeLaws basic_unicode.
Proof.
  split; simpl.
  - reflexivity.
  - intros a c b Hc. rewrite map_app. simpl. now rewrite (ascii_lower_space c Hc).
  - intros t. unfold nonspace. rewrite !forallb_forall. intros H c Hc.
    apply in_map_iff in Hc. destruct Hc as [c' [<- Hc']].
    rewrite ascii_lower_nonspace. now apply H.
  - intros u Hu. induction u as [|c u IH]; [reflexivity|]. simpl.
    rewrite IH by (intros c' Hc'; apply Hu; now right).
    destruct (Hu c (or_introl eq_refl)) as [s Hs].
    apply in_map_iff in Hs. destruct Hs as [c' [<- _]].
    now rewrite ascii_lower_idem.
  - intros c v. unfold basic_digit_value, isspace.
    repeat match goal with
    | |- context [(?a <=? ?b)%N] => destruct (N.leb_spec a b); try lia
    | |- context [(?a =? ?b)%N] => destruct (N.eqb_spec a b); try lia
    end; simpl; congruence.
Qed.

Lemma plain_builtins_laws : BuiltinsLaws plain_builtins.
Proof.
  split; simpl.
  - intros q c H. apply in_app_or in H. destruct H as [H|H].
    + now apply str_of_int_numeral in H.
    + revert H. vm_compute. tauto.
  - intros _ c. vm_compute. tauto.
Qed.

Lemma name_cell_coerced_witness :
  exists products,
    _load_products (U := basic_unicode) (B := plain_builtins)
      missing_name_table = Some products /\
    In {| p_name := py "7"; p_price := Finite 80; p_type := TRetail;
          p_size := 0; p_fp := [] |} products.
Proof.
  exists [ {| p_name := py "nan"; p_price := Finite 120; p_type := TRetail;
              p_size := 0; p_fp := py "nan" |};
           {| p_name := py "7"; p_price := Finite 80; p_type := TRetail;
              p_size := 0; p_fp := [] |} ].
  split; [reflexivity|].
  exact (proj1 (proj2 (@name_cell_coerced basic_unicode basic_unicode_laws
                         plain_builtins plain_builtins_laws))
           missing_name_table 0%nat 1%nat _ [VInt 7; VInt 80] (Finite 80)
           eq_refl eq_refl (or_intror (or_introl eq_refl))
           (fun s H => eq_ind (VInt 7) (fun v => match v with VInt _ => True | _ => False end)
                              I (VStr s) H)
           eq_refl).
Defined.

(* ================================================================== *)
(** * The size pattern *)
(* ================================================================== *)

Lemma firstn_length_app {A : Type} (a b : list A) :
  firstn (List.length a) (a ++ b) = a.
Proof. induction a as [|x a IH]; simpl; [reflexivity | now rewrite IH]. Qed.

Section SizeFacts.
Context {U : Unicode}.

Lemma unit_here_iff (s : pystr) :
  unit_here s = true <->
  exists rest, s = py "ml" ++ rest \/ s = py "مل" ++ rest.
Proof.
  unfold unit_here. rewrite orb_true_iff, !starts_with_iff. split.
  - intros [[r Hr]|[r Hr]]; exists r; [now left | now right].
  - intros [r [Hr|Hr]]; [left | right]; now exists r.
Qed.

Lemma ws_unit_iff (s : pystr) :
  ws_unit s = true <->
  exists ws rest,
    forallb isspace ws = true /\
    (s = ws ++ py "ml" ++ rest \/ s = ws ++ py "مل" ++ rest).
Proof.
  induction s as [|c s IH].
  - simpl. split; [discriminate|].
    intros [[|w ws] [rest [_ [H|H]]]]; discriminate.
  - cbn [ws_unit]. rewrite orb_true_iff, andb_true_iff, IH, unit_here_iff. split.
    + intros [[Hc [ws [rest [Hws H]]]]|[rest H]].
      * exists (c :: ws), rest. split; [simpl; now rewrite Hc|].
        destruct H as [->| ->]; [now left | now right].
      * now exists [], rest.
    + intros [[|w ws] [rest [Hws H]]].
      * right. now exists rest.
      * left. simpl in Hws. apply andb_true_iff in Hws. destruct Hws as [Hw Hws].
        assert (c = w /\ (s = ws ++ py "ml" ++ rest \/ s = ws ++ py "مل" ++ rest))
          as [-> Hs].
        { destruct H as [H|H]; injection H as -> ->; split; auto. }
        split; [exact Hw|]. now exists ws, rest.
Qed.

(** A match at the head of [c :: tl]: [c] is a digit, and either the
    digits stop there and the unit follows, or the match goes on. *)
Lemma size_match_cons (c : codepoint) (tl ds : pystr) :
  size_match (c :: tl) ds <->
  isdigit c = true /\
  exists ds', ds = c :: ds' /\
    ((ds' = [] /\ ws_unit tl = true) \/ size_match tl ds').
Proof.
  unfold size_match. split.
  - intros [Hne [Hd [ws [rest [Hws H]]]]].
    destruct ds as [|d ds']; [easy|].
    simpl in Hd. apply andb_true_iff in Hd. destruct Hd as [Hd Hds].
    assert (c = d /\ (tl = ds' ++ ws ++ py "ml" ++ rest \/
                      tl = ds' ++ ws ++ py "مل" ++ rest)) as [-> Htl].
    { destruct H as [H|H]; injection H as -> ->; split; auto. }
    split; [exact Hd|]. exists ds'. split; [reflexivity|].
    destruct ds' as [|d' ds''].
    + left. split; [reflexivity|]. apply ws_unit_iff. now exists ws, rest.
    + right. split; [easy|]. split; [exact Hds|]. now exists ws, rest.
  - intros [Hc [ds' [-> [[-> Hw]|[Hne [Hd [ws [rest [Hws H]]]]]]]]].
    + split; [easy|]. split; [simpl; now rewrite Hc|].
      apply ws_unit_iff in Hw. destruct Hw as [ws [rest [Hws H]]].
      exists ws, rest. split; [exact Hws|].
      destruct H as [->| ->]; [now left | now right].
    + split; [easy|]. split; [simpl; now rewrite Hc, Hd|].
      exists ws, rest. split; [exact Hws|].
      destruct H as [->| ->]; [now left | now right].
Qed.

Lemma size_match_nil (ds : pystr) : ~ size_match [] ds.
Proof.
  intros [Hne [_ [ws [rest [_ H]]]]].
  destruct ds; [easy|]. destruct H; discriminate.
Qed.

Lemma size_here_sound (s ds : pystr) :
  size_here s = Some ds -> size_match s ds.
Proof.
  revert ds. induction s as [|c tl IH]; intros ds; simpl; [discriminate|].
  destruct (isdigit c) eqn:Hc; [|discriminate].
  destruct (size_here tl) as [ds0|] eqn:E.
  - intros [= <-]. apply size_match_cons. split; [exact Hc|].
    exists ds0. split; [reflexivity|]. right. now apply IH.
  - destruct (ws_unit tl) eqn:Hw; [|discriminate].
    intros [= <-]. apply size_match_cons. split; [exact Hc|].
    exists []. split; [reflexivity|]. now left.
Qed.

(** The match found at the head is the one with the most digits. *)
Lemma size_here_complete (s ds' : pystr) :
  size_match s ds' ->
  exists ds, size_here s = Some ds /\ (List.length ds' <= List.length ds)%nat.
Proof.
  revert ds'. induction s as [|c tl IH]; intros ds' H.
  - now apply size_match_nil in H.
  - apply size_match_cons in H.
    destruct H as [Hc [ds0 [-> [[-> Hw]|Hm]]]]; simpl; rewrite Hc.
    + destruct (size_here tl) as [ds1|].
      * exists (c :: ds1). split; [reflexivity | simpl; lia].
      * rewrite Hw. exists [c]. split; [reflexivity | simpl; lia].
    + destruct (IH ds0 Hm) as [ds1 [-> Hlen]].
      exists (c :: ds1). split; [reflexivity | simpl; lia].
Qed.

Lemma size_here_none (s : pystr) :
  size_here s = None -> forall ds, ~ size_match s ds.
Proof.
  intros H ds Hm. destruct (size_here_complete s ds Hm) as [ds1 [H1 _]].
  congruence.
Qed.

Lemma search_none (s : pystr) :
  re_search_size s = None <-> ~ size_occurs s.
Proof.
  induction s as [|c tl IH].
  - simpl. split; [|reflexivity]. intros _ [pre [post [ds [Hs Hm]]]].
    destruct pre; [|discriminate]. simpl in Hs. subst post.
    now apply size_match_nil in Hm.
  - cbn [re_search_size]. destruct (size_here (c :: tl)) as [ds|] eqn:E.
    + split; [discriminate|]. intros Hno. exfalso. apply Hno.
      exists [], (c :: tl), ds. split; [reflexivity | now apply size_here_sound].
    + rewrite IH. split.
      * intros Hno [pre [post [ds [Hs Hm]]]]. destruct pre as [|p pre].
        -- simpl in Hs. subst post. now apply (size_here_none _ E ds).
        -- injection Hs as -> ->. apply Hno. now exists pre, post, ds.
      * intros Hno [pre [post [ds [Hs Hm]]]]. apply Hno.
        exists (c :: pre), post, ds. split; [now rewrite Hs | exact Hm].
Qed.

(** The search returns the digits of the leftmost match, the longest
    there. *)
Lemma search_some (s pre post ds : pystr) :
  s = pre ++ post ->
  size_match post ds ->
  (forall pre' post' ds',
      s = pre' ++ post' -> size_match post' ds' ->
      (List.length pre <= List.length pre')%nat) ->
  (forall ds', size_match post ds' -> (List.length ds' <= List.length ds)%nat) ->
  re_search_size s = Some ds.
Proof.
  revert s. induction pre as [|p pre IH]; intros s Hs Hm Hleft Hlong.
  - simpl in Hs. subst s.
    destruct (size_here_complete post ds Hm) as [ds1 [H1 Hlen]].
    assert (Hm1 := size_here_sound _ _ H1).
    assert (Hlen1 := Hlong ds1 Hm1).
    assert (ds1 = ds) as ->.
    { destruct Hm as [_ [_ [ws [rest [_ Hp]]]]].
      destruct Hm1 as [_ [_ [ws1 [rest1 [_ Hp1]]]]].
      assert (E : firstn (List.length ds) post = ds)
        by (destruct Hp as [->| ->]; apply firstn_length_app).
      assert (E1 : firstn (List.length ds1) post = ds1)
        by (destruct Hp1 as [->| ->]; apply firstn_length_app).
      transitivity (firstn (List.length ds1) post); [symmetry; exact E1|].
      replace (List.length ds1) with (List.length ds) by lia. exact E. }
    destruct post; [now apply size_match_nil in Hm|].
    cbn [re_search_size]. now rewrite H1.
  - subst s. change ((p :: pre) ++ post) with (p :: pre ++ post).
    cbn [re_search_size].
    destruct (size_here (p :: pre ++ post)) as [ds0|] eqn:E.
    + exfalso. apply size_here_sound in E.
      specialize (Hleft [] (p :: pre ++ post) ds0 eq_refl E). simpl in Hleft. lia.
    + apply IH; auto.
      intros pre' post' ds' Hs' Hm'.
      specialize (Hleft (p :: pre') post' ds').
      simpl in Hleft. rewrite Hs' in Hleft.
      specialize (Hleft eq_refl Hm'). lia.
Qed.

End SizeFacts.

(** C9, as the code has it. The size of a name that is not rejected is
    the integer read from the digits of the first match of the size
    pattern in the lowercased name (digits, then optional whitespace, then
    "ml" or its Arabic spelling) when these digits number at most 4300,
    and 0 when the pattern matches nowhere; when the digits number more,
    reading them raises and the name gets no size; "Chanel No5 100ml" has
    size 100, "Dior 50 مل" size 50, a name without unit size 0. *)
Theorem size_extraction :
  (forall (U : Unicode) (B : Builtins) (name : pyval),
      let low := lower (py_str name) in
      any_in REJECTED low = false ->
      (~ size_occurs low ->
       _classify name = Some (classify_type low, 0%Z, false)) /\
      (forall pre post ds,
          low = pre ++ post ->
          size_match post ds ->
          (forall pre' post' ds',
              low = pre' ++ post' -> size_match post' ds' ->
              (List.length pre <= List.length pre')%nat) ->
          (forall ds', size_match post ds' ->
                       (List.length ds' <= List.length ds)%nat) ->
          ((Z.of_nat (List.length ds) <= INT_MAX_STR_DIGITS)%Z ->
           _classify name = Some (classify_type low, digits_number ds, false)) /\
          ((INT_MAX_STR_DIGITS < Z.of_nat (List.length ds))%Z ->
           _classify name = None))) /\
  _classify (U := basic_unicode) (B := plain_builtins)
    (VStr (py "Chanel No5 100ml")) = Some (TRetail, 100%Z, false) /\
  _classify (U := basic_unicode) (B := plain_builtins)
    (VStr (py "Dior 50 مل")) = Some (TRetail, 50%Z, false) /\
  _classify (U := basic_unicode) (B := plain_builtins)
    (VStr (py "Chanel No5")) = Some (TRetail, 0%Z, false).
Proof.
  split; [|repeat split].
  intros U B name low Hok. split.
  - intros Hno. apply classify_accepted; [exact Hok|]. fold low.
    unfold extract_size. apply search_none in Hno. now rewrite Hno.
  - intros pre post ds Hs Hm Hleft Hlong.
    assert (E : extract_size low = int_of_digits ds).
    { unfold extract_size. now rewrite (search_some low pre post ds Hs Hm Hleft Hlong). }
    split; intros Hlen.
    + apply classify_accepted; [exact Hok|]. fold low.
      rewrite E. now apply int_of_digits_some.
    + apply classify_raises; [exact Hok|]. fold low.
      rewrite E. now apply int_of_digits_none.
Qed.

(** C9, as the specification words it, fails: in a name with 4301 zeros
    before the unit the pattern matches, and the integer of the match is
    not captured, since reading it raises. *)
Lemma size_extraction_fails :
  re_search_size (U := basic_unicode)
    (@lower basic_unicode (@py_str plain_builtins zero_padded_name)) =
    Some (repeat 48%N (N.to_nat 4301)) /\
  _classify (U := basic_unicode) (B := plain_builtins) zero_padded_name = None.
Proof. split; vm_compute; reflexivity. Qed.

(* ================================================================== *)
(** * Sorting *)
(* ================================================================== *)

Lemma str_leb_total (a b : pystr) : str_leb a b = false -> str_leb b a = true.
Proof.
  revert b. induction a as [|x a IH]; intros [|y b]; simpl; try easy.
  destruct (N.ltb_spec x y), (N.eqb_spec x y), (N.ltb_spec y x), (N.eqb_spec y x);
    try lia; try easy. apply IH.
Qed.

Lemma str_leb_antisym (a b : pystr) :
  str_leb a b = true -> str_leb b a = true -> a = b.
Proof.
  revert b. induction a as [|x a IH]; intros [|y b]; simpl; try easy.
  destruct (N.ltb_spec x y), (N.eqb_spec x y), (N.ltb_spec y x), (N.eqb_spec y x);
    try lia; try easy. intros H1 H2. subst. f_equal. now apply IH.
Qed.

Lemma str_leb_trans (a b c : pystr) :
  str_leb a b = true -> str_leb b c = true -> str_leb a c = true.
Proof.
  revert b c. induction a as [|x a IH]; intros [|y b] [|z c]; simpl; try easy.
  destruct (N.ltb_spec x y), (N.eqb_spec x y), (N.ltb_spec y z), (N.eqb_spec y z),
    (N.ltb_spec x z), (N.eqb_spec x z); try lia; try easy. apply IH.
Qed.

Lemma insert_sorted_comm (a b : pystr) (l : list pystr) :
  insert_sorted a (insert_sorted b l) = insert_sorted b (insert_sorted a l).
Proof.
  induction l as [|y l IH]; simpl.
  - destruct (str_leb a b) eqn:Eab, (str_leb b a) eqn:Eba; try reflexivity.
    + now rewrite (str_leb_antisym a b Eab Eba).
    + apply str_leb_total in Eab. congruence.
  - destruct (str_leb b y) eqn:Eby, (str_leb a y) eqn:Eay; simpl.
    + destruct (str_leb a b) eqn:Eab, (str_leb b a) eqn:Eba;
        rewrite ?Eay, ?Eby; try reflexivity.
      * now rewrite (str_leb_antisym a b Eab Eba).
      * apply str_leb_total in Eab. congruence.
    + destruct (str_leb a b) eqn:Eab.
      * rewrite (str_leb_trans a b y Eab Eby) in Eay. discriminate.
      * now rewrite Eay, Eby.
    + destruct (str_leb b a) eqn:Eba.
      * rewrite (str_leb_trans b a y Eba Eay) in Eby. discriminate.
      * now rewrite Eay, Eby.
    + now rewrite Eay, Eby, IH.
Qed.

(** Sorting forgets the order of what it is given. *)
Lemma sorted_perm (l1 l2 : list pystr) :
  Permutation l1 l2 -> sorted l1 = sorted l2.
Proof.
  unfold sorted. induction 1; simpl.
  - reflexivity.
  - now f_equal.
  - apply insert_sorted_comm.
  - congruence.
Qed.

(* ================================================================== *)
(** * Splitting *)
(* ================================================================== *)

Lemma nonspace_true (c : codepoint) : nonspace c = true <-> isspace c = false.
Proof. unfold nonspace. apply negb_true_iff. Qed.

Lemma split_from_token (t : pystr) :
  forallb nonspace t = true ->
  forall cur s, split_from cur (t ++ s) = split_from (cur ++ t) s.
Proof.
  induction t as [|c t IH]; intros Ht cur s; simpl.
  - now rewrite app_nil_r.
  - simpl in Ht. apply andb_true_iff in Ht. destruct Ht as [Hc Ht].
    apply nonspace_true in Hc. rewrite Hc, (IH Ht), <- app_assoc. reflexivity.
Qed.

Lemma split_token_space (t s : pystr) (c : codepoint) :
  forallb nonspace t = true -> isspace c = true ->
  split (t ++ c :: s) = emit t ++ split s.
Proof.
  intros Ht Hc. unfold split. rewrite (split_from_token t Ht). simpl.
  now rewrite Hc.
Qed.

Lemma split_token (t : pystr) :
  forallb nonspace t = true -> split t = emit t.
Proof.
  intros Ht. unfold split.
  rewrite <- (app_nil_r t) at 1. now rewrite (split_from_token t Ht).
Qed.

(** A text is a token, or a token, a whitespace character and a text. *)
Lemma first_space (s : pystr) :
  forallb nonspace s = true \/
  exists t c r, s = t ++ c :: r /\ forallb nonspace t = true /\ isspace c = true.
Proof.
  induction s as [|x s IH]; [now left|].
  destruct (isspace x) eqn:Hx.
  - right. now exists [], x, s.
  - destruct IH as [Hs|[t [c [r [-> [Ht Hc]]]]]].
    + left. simpl. unfold nonspace at 1. now rewrite Hx.
    + right. exists (x :: t), c, r. repeat split; auto.
      simpl. unfold nonspace at 1. now rewrite Hx.
Qed.

(** Splitting after a transparent transformation: the tokens are
    transformed one by one, and those that vanish are dropped. *)
Lemma split_transparent (g : pystr -> pystr) :
  ws_transparent g ->
  forall s, split (g s) = flat_map (fun t => emit (g t)) (split s).
Proof.
  intros [Hnil [Happ Hns]].
  assert (Hemit : forall t, forallb nonspace t = true ->
                    flat_map (fun t => emit (g t)) (emit t) = emit (g t)).
  { intros [|x t] _; simpl; [now rewrite Hnil | now rewrite app_nil_r]. }
  intros s. remember (List.length s) as n eqn:Hn. revert s Hn.
  induction n as [n IH] using lt_wf_ind. intros s Hn.
  destruct (first_space s) as [Hs|[t [c [r [-> [Ht Hc]]]]]].
  - rewrite (split_token s Hs), (Hemit s Hs). apply split_token. now apply Hns.
  - rewrite (Happ t c r Hc), (split_token_space t r c Ht Hc).
    rewrite (split_token_space (g t) (g r) c (Hns t Ht) Hc).
    rewrite flat_map_app, (Hemit t Ht). f_equal.
    apply (IH (List.length r)); [|reflexivity].
    subst n. rewrite length_app. simpl. lia.
Qed.

Lemma ws_transparent_compose (g h : pystr -> pystr) :
  ws_transparent g -> ws_transparent h -> ws_transparent (fun s => h (g s)).
Proof.
  intros [Gn [Ga Gs]] [Hn [Ha Hs]]. repeat split.
  - now rewrite Gn.
  - intros a c b Hc. now rewrite (Ga a c b Hc), (Ha _ c _ Hc).
  - intros t Ht. now apply Hs, Gs.
Qed.

Lemma ws_transparent_map (f : codepoint -> codepoint) :
  (forall c, isspace c = true -> f c = c) ->
  (forall c, isspace (f c) = isspace c) ->
  ws_transparent (map f).
Proof.
  intros Hfix Hsp. repeat split.
  - intros a c b Hc. rewrite map_app. simpl. now rewrite (Hfix c Hc).
  - intros t. rewrite !forallb_forall. intros H c Hc.
    apply in_map_iff in Hc. destruct Hc as [c' [<- Hc']].
    unfold nonspace. rewrite Hsp. now apply H.
Qed.

Lemma ws_transparent_filter (p : codepoint -> bool) :
  (forall c, isspace c = true -> p c = true) ->
  ws_transparent (filter p).
Proof.
  intros Hp. repeat split.
  - intros a c b Hc. rewrite filter_app. simpl. now rewrite (Hp c Hc).
  - intros t. rewrite !forallb_forall. intros H c Hc.
    apply filter_In in Hc. now apply H.
Qed.

(* ================================================================== *)
(** * Removing the noise words *)
(* ================================================================== *)

Lemma starts_with_length (w s : pystr) :
  starts_with w s = true -> (List.length w <= List.length s)%nat.
Proof.
  revert s. induction w as [|x w IH]; intros [|y s]; simpl; try easy; try lia.
  intros H. apply andb_true_iff in H. destruct H as [_ H]. apply IH in H. lia.
Qed.

(** A word without whitespace does not reach across a whitespace
    character. *)
Lemma starts_with_before_space (w a b : pystr) (c : codepoint) :
  forallb nonspace w = true -> isspace c = true ->
  starts_with w (a ++ c :: b) = starts_with w a.
Proof.
  intros Hw Hc. revert a. induction w as [|x w IH]; intros a; simpl.
  - now destruct a.
  - simpl in Hw. apply andb_true_iff in Hw. destruct Hw as [Hx Hw].
    destruct a as [|y a]; simpl.
    + destruct (N.eqb_spec x c) as [->|]; [|reflexivity].
      apply nonspace_true in Hx. congruence.
    + now rewrite (IH Hw).
Qed.

Lemma remove_from_space (w : pystr) (c : codepoint) (b : pystr) :
  w <> [] -> forallb nonspace w = true -> isspace c = true ->
  forall a k, (k <= List.length a)%nat ->
  remove_from w k (a ++ c :: b) = remove_from w k a ++ c :: remove_from w 0 b.
Proof.
  intros Hne Hw Hc. induction a as [|y a IH]; intros k Hk.
  - simpl in Hk. assert (k = 0)%nat as -> by lia.
    pose proof (starts_with_before_space w [] b c Hw Hc) as E.
    cbn [app] in E. cbn [remove_from app]. rewrite E.
    destruct w; [easy | reflexivity].
  - change ((y :: a) ++ c :: b) with (y :: a ++ c :: b). cbn [remove_from].
    destruct k as [|k].
    + change (y :: a ++ c :: b) with ((y :: a) ++ c :: b).
      rewrite (starts_with_before_space w (y :: a) b c Hw Hc).
      destruct (starts_with w (y :: a)) eqn:E.
      * apply IH. apply starts_with_length in E. simpl in E. lia.
      * simpl. f_equal. apply IH. lia.
    + apply IH. simpl in Hk. lia.
Qed.

Lemma remove_from_In (w : pystr) (s : pystr) :
  forall k c, In c (remove_from w k s) -> In c s.
Proof.
  induction s as [|y s IH]; intros k c; simpl; [easy|].
  destruct k as [|k].
  - destruct (starts_with w (y :: s)).
    + intros H. right. now apply IH in H.
    + intros [H|H]; [now left | right; now apply IH in H].
  - intros H. right. now apply IH in H.
Qed.

Lemma remove_from_nil (w : pystr) (k : nat) : remove_from w k [] = [].
Proof. reflexivity. Qed.

Lemma ws_transparent_remove (w : pystr) :
  forallb nonspace w = true -> ws_transparent (remove_all w).
Proof.
  intros Hw. destruct w as [|x w].
  - repeat split; auto.
  - unfold remove_all. repeat split.
    + intros a c b Hc. apply remove_from_space; auto; [easy | lia].
    + intros t. rewrite !forallb_forall. intros H c Hc.
      apply remove_from_In in Hc. now apply H.
Qed.

Lemma ws_transparent_fold (ws : list pystr) :
  Forall (fun w => forallb nonspace w = true) ws ->
  ws_transparent (fun txt => fold_left (fun t w => remove_all w t) ws txt).
Proof.
  induction 1 as [|w ws Hw _ IH]; simpl.
  - repeat split; auto.
  - apply (ws_transparent_compose (remove_all w) _ (ws_transparent_remove w Hw) IH).
Qed.

Lemma noise_nonspace : Forall (fun w => forallb nonspace w = true) NOISE.
Proof. unfold NOISE. repeat constructor. Qed.

Lemma norm_alif_space (c : codepoint) :
  (isspace c = true -> norm_alif c = c) /\ isspace (norm_alif c) = isspace c.
Proof.
  unfold norm_alif.
  destruct ((c =? 1573) || (c =? 1571) || (c =? 1570) || (c =? 1575))%N eqn:E;
    [|easy].
  repeat (apply orb_true_iff in E; destruct E as [E|E]);
    apply N.eqb_eq in E; subst c; split; easy.
Qed.

Lemma norm_teh_space (c : codepoint) :
  (isspace c = true -> norm_teh c = c) /\ isspace (norm_teh c) = isspace c.
Proof.
  unfold norm_teh. destruct (N.eqb_spec c 1577) as [->|]; easy.
Qed.

Section FingerprintFacts.
Context {U : Unicode} {L : UnicodeLaws U}.

Lemma lower_nil : lower [] = [].
Proof. now rewrite (lower_basic [] eq_refl). Qed.

Lemma ws_transparent_lower : ws_transparent lower.
Proof.
  split; [apply lower_nil|]. split; [apply lower_space | apply lower_nonspace].
Qed.

Lemma isdigit_space (c : codepoint) : isspace c = true -> isdigit c = false.
Proof.
  intros Hc. unfold isdigit. destruct (digit_value c) as [v|] eqn:E; [|reflexivity].
  apply digit_nonspace in E. congruence.
Qed.

(** Everything the fingerprint does before it splits is transparent. *)
Lemma ws_transparent_clean : ws_transparent clean.
Proof.
  unfold clean, drop_digits, keep_word_space, strip_noise.
  apply (ws_transparent_compose
           (fun s => filter (fun c => isword c || isspace c)
                       (fold_left (fun t w => remove_all w t) NOISE
                          (map norm_teh (map norm_alif (lower s)))))
           (filter (fun c => negb (isdigit c)))).
  2: { apply ws_transparent_filter. intros c Hc. now rewrite (isdigit_space c Hc). }
  apply (ws_transparent_compose
           (fun s => fold_left (fun t w => remove_all w t) NOISE
                       (map norm_teh (map norm_alif (lower s))))
           (filter (fun c => isword c || isspace c))).
  2: { apply ws_transparent_filter. intros c Hc. rewrite Hc. apply orb_true_r. }
  apply (ws_transparent_compose
           (fun s => map norm_teh (map norm_alif (lower s)))
           (fun txt => fold_left (fun t w => remove_all w t) NOISE txt)).
  2: { apply ws_transparent_fold, noise_nonspace. }
  apply (ws_transparent_compose (fun s => map norm_alif (lower s)) (map norm_teh)).
  2: { apply ws_transparent_map; intros c; apply norm_teh_space. }
  apply (ws_transparent_compose lower (map norm_alif)).
  - apply ws_transparent_lower.
  - apply ws_transparent_map; intros c; apply norm_alif_space.
Qed.

(** The tokens of the cleaned text are the cleaned tokens of the text. *)
Lemma split_clean (s : pystr) :
  split (clean s) = flat_map (fun t => emit (clean t)) (split s).
Proof. apply split_transparent, ws_transparent_clean. Qed.

End FingerprintFacts.

(** C8. The fingerprint does not depend on the order of the words: two
    names whose whitespace-separated tokens are a permutation of each
    other have the same fingerprint. *)
Theorem fingerprint_order_invariant (U : Unicode) (L : UnicodeLaws U) (a b : pystr) :
  Permutation (split a) (split b) ->
  _fingerprint (VStr a) = _fingerprint (VStr b).
Proof.
  intros Hperm. unfold _fingerprint. rewrite !split_clean.
  now rewrite (sorted_perm _ _ (Permutation_flat_map _ Hperm)).
Qed.

Lemma fingerprint_order_invariant_witness :
  _fingerprint (U := basic_unicode) (VStr (py "Chanel No 5 100ml")) =
  _fingerprint (U := basic_unicode) (VStr (py "100ml No 5 Chanel")).
Proof.
  apply (@fingerprint_order_invariant basic_unicode basic_unicode_laws).
  change (split (py "Chanel No 5 100ml"))
    with [py "Chanel"; py "No"; py "5"; py "100ml"].
  change (split (py "100ml No 5 Chanel"))
    with [py "100ml"; py "No"; py "5"; py "Chanel"].
  apply (Permutation_cons_app [py "100ml"; py "No"; py "5"] []).
  apply (Permutation_cons_app [py "100ml"] [py "5"]).
  apply (Permutation_cons_app [py "100ml"] []).
  apply Permutation_refl.
Defined.

(* ================================================================== *)
(** * Tokens *)
(* ================================================================== *)

Lemma emit_token (cur : pystr) :
  forallb nonspace cur = true -> Forall token (emit cur).
Proof.
  intros H. destruct cur; simpl; [constructor|].
  constructor; [|constructor]. now split.
Qed.

Lemma split_from_tokens (s : pystr) :
  forall cur, forallb nonspace cur = true -> Forall token (split_from cur s).
Proof.
  induction s as [|c s IH]; intros cur Hcur; simpl.
  - now apply emit_token.
  - destruct (isspace c) eqn:Hc.
    + apply Forall_app. split; [now apply emit_token | now apply IH].
    + apply IH. rewrite forallb_app, Hcur. simpl. unfold nonspace. now rewrite Hc.
Qed.

Lemma split_tokens (s : pystr) : Forall token (split s).
Proof. now apply split_from_tokens. Qed.

Lemma split_from_chars (s : pystr) :
  forall cur t c, In t (split_from cur s) -> In c t -> In c cur \/ In c s.
Proof.
  induction s as [|x s IH]; intros cur t c Ht Hc; simpl in Ht.
  - destruct cur; [easy|]. destruct Ht as [<-|[]]. now left.
  - destruct (isspace x).
    + apply in_app_or in Ht. destruct Ht as [Ht|Ht].
      * destruct cur; [easy|]. destruct Ht as [<-|[]]. now left.
      * destruct (IH [] t c Ht Hc) as [[]|H]. right. now right.
    + destruct (IH _ t c Ht Hc) as [H|H].
      * apply in_app_or in H. destruct H as [H|[<-|[]]]; [now left | right; now left].
      * right. now right.
Qed.

Lemma split_chars (s t : pystr) (c : codepoint) :
  In t (split s) -> In c t -> In c s.
Proof. intros Ht Hc. now destruct (split_from_chars s [] t c Ht Hc). Qed.

Lemma insert_sorted_perm (x : pystr) (l : list pystr) :
  Permutation (insert_sorted x l) (x :: l).
Proof.
  induction l as [|y l IH]; simpl; [apply Permutation_refl|].
  destruct (str_leb x y); [apply Permutation_refl|].
  apply perm_trans with (y :: x :: l); [now apply perm_skip | apply perm_swap].
Qed.

Lemma sorted_is_perm (l : list pystr) : Permutation (sorted l) l.
Proof.
  induction l as [|x l IH]; simpl; [constructor|].
  apply perm_trans with (x :: sorted l);
    [apply insert_sorted_perm | now apply perm_skip].
Qed.

Lemma sorted_idem (l : list pystr) : sorted (sorted l) = sorted l.
Proof. apply sorted_perm, sorted_is_perm. Qed.

(** ** Joining tokens with a space *)

Lemma join_cons (x : pystr) (l : list pystr) :
  l <> [] -> join [32%N] (x :: l) = x ++ 32%N :: join [32%N] l.
Proof. destruct l; [easy | reflexivity]. Qed.

Lemma split_join (l : list pystr) :
  Forall token l -> split (join [32%N] l) = l.
Proof.
  induction 1 as [|x l [Hne Hx] Hl IH]; [reflexivity|].
  destruct l as [|y l].
  - simpl. rewrite (split_token x Hx). now destruct x.
  - rewrite join_cons by easy.
    rewrite (split_token_space x _ 32%N Hx eq_refl), IH.
    now destruct x.
Qed.

Lemma join_chars (l : list pystr) (c : codepoint) :
  In c (join [32%N] l) -> c = 32%N \/ exists t, In t l /\ In c t.
Proof.
  induction l as [|x l IH]; [easy|].
  destruct l as [|y l].
  - simpl. intros H. right. exists x. split; [now left | exact H].
  - rewrite join_cons by easy. intros H. apply in_app_or in H.
    destruct H as [H|[<-|H]].
    + right. exists x. split; [now left | exact H].
    + now left.
    + destruct (IH H) as [->|[t [Ht Hc]]]; [now left|].
      right. exists t. split; [now right | exact Hc].
Qed.

Lemma lstrip_token_head (x r : pystr) :
  token x -> lstrip (x ++ r) = x ++ r.
Proof.
  intros [Hne Hx]. destruct x as [|c x]; [easy|]. simpl in *.
  apply andb_true_iff in Hx. destruct Hx as [Hc _].
  apply nonspace_true in Hc. now rewrite Hc.
Qed.

Lemma join_head (l : list pystr) :
  Forall token l -> l <> [] -> exists x r, token x /\ join [32%N] l = x ++ r.
Proof.
  intros Hl Hne. destruct Hl as [|x l Hx Hl]; [easy|].
  destruct l as [|y l].
  - exists x, []. split; [exact Hx | now rewrite app_nil_r].
  - exists x, (32%N :: join [32%N] (y :: l)). split; [exact Hx | now rewrite join_cons].
Qed.

Lemma rev_token (x : pystr) : token x -> token (rev x).
Proof.
  intros [Hne Hx]. split.
  - intros H. apply Hne. rewrite <- (rev_involutive x), H. reflexivity.
  - rewrite forallb_forall in *. intros c Hc. apply Hx. now apply in_rev.
Qed.

Lemma join_last (l : list pystr) :
  Forall token l -> l <> [] -> exists x r, token x /\ join [32%N] l = r ++ x.
Proof.
  induction 1 as [|x l Hx Hl IH]; [easy|]. intros _.
  destruct l as [|y l].
  - exists x, []. now split.
  - destruct IH as [z [r [Hz Hr]]]; [easy|].
    exists z, (x ++ 32%N :: r). split; [exact Hz|].
    rewrite join_cons by easy. rewrite Hr, <- app_assoc. reflexivity.
Qed.

(** A joined list of tokens has nothing to strip. *)
Lemma strip_join (l : list pystr) :
  Forall token l -> strip (join [32%N] l) = join [32%N] l.
Proof.
  intros Hl. destruct l as [|x0 l0] eqn:El; [reflexivity|]. rewrite <- El in *.
  assert (Hne : l <> []) by (rewrite El; easy).
  unfold strip.
  destruct (join_head l Hl Hne) as [x [r [Hx Hj]]].
  rewrite Hj at 1. rewrite (lstrip_token_head x r Hx), <- Hj.
  destruct (join_last l Hl Hne) as [z [r' [Hz Hj']]].
  rewrite Hj' at 1. rewrite rev_app_distr.
  rewrite (lstrip_token_head (rev z) (rev r') (rev_token z Hz)).
  rewrite <- rev_app_distr, <- Hj'. apply rev_involutive.
Qed.

(** ** Text that a step of the fingerprint leaves as it is *)

Lemma filter_all {A : Type} (p : A -> bool) (l : list A) :
  (forall x, In x l -> p x = true) -> filter p l = l.
Proof.
  induction l as [|x l IH]; intros H; simpl; [reflexivity|].
  rewrite (H x (or_introl eq_refl)), IH; [reflexivity|].
  intros y Hy. apply H. now right.
Qed.

Lemma map_fixed {A : Type} (f : A -> A) (l : list A) :
  (forall x, In x l -> f x = x) -> map f l = l.
Proof.
  induction l as [|x l IH]; intros H; simpl; [reflexivity|].
  rewrite (H x (or_introl eq_refl)), IH; [reflexivity|].
  intros y Hy. apply H. now right.
Qed.

Lemma remove_from_absent (w s : pystr) :
  contains w s = false -> remove_from w 0 s = s.
Proof.
  induction s as [|c s IH]; [reflexivity|].
  cbn [contains remove_from]. intros H. apply orb_false_iff in H.
  destruct H as [H1 H2]. rewrite H1, (IH H2). reflexivity.
Qed.

Lemma remove_all_absent (w s : pystr) :
  contains w s = false -> remove_all w s = s.
Proof.
  intros H. destruct w; [reflexivity|]. now apply remove_from_absent.
Qed.

Lemma strip_noise_free (t : pystr) : noise_free t -> strip_noise t = t.
Proof.
  unfold noise_free, strip_noise. induction NOISE as [|w ws IH]; intros H.
  - reflexivity.
  - simpl. rewrite (remove_all_absent w t) by (apply H; now left).
    apply IH. intros w' Hw'. apply H. now right.
Qed.

Lemma strip_noise_In (s : pystr) (c : codepoint) :
  In c (strip_noise s) -> In c s.
Proof.
  unfold strip_noise. revert s. induction NOISE as [|w ws IH]; intros s; simpl.
  - easy.
  - intros H. apply IH in H. destruct w; [exact H|].
    now apply remove_from_In in H.
Qed.

Lemma norm_normal (c : codepoint) :
  let c' := norm_teh (norm_alif c) in
  norm_alif c' = c' /\ norm_teh c' = c' /\
  (c' = c \/ c' = 1575%N \/ c' = 1607%N).
Proof.
  unfold norm_teh, norm_alif.
  destruct (N.eqb_spec c 1573) as [->|]; [vm_compute; auto|].
  destruct (N.eqb_spec c 1571) as [->|]; [vm_compute; auto|].
  destruct (N.eqb_spec c 1570) as [->|]; [vm_compute; auto|].
  destruct (N.eqb_spec c 1575) as [->|]; [vm_compute; auto|].
  simpl.
  destruct (N.eqb_spec c 1577) as [->|]; [vm_compute; auto|].
  repeat match goal with
  | |- context [(?a =? ?b)%N] => destruct (N.eqb_spec a b); try congruence
  end; simpl; auto.
Qed.

Section IdempotenceFacts.
Context {U : Unicode} {L : UnicodeLaws U}.

Lemma lowered_basic (c : codepoint) : basic c = true -> ascii_lower c = c ->
  exists s, In c (lower s).
Proof.
  intros Hb Hl. exists [c]. rewrite (lower_basic [c]) by (simpl; now rewrite Hb).
  simpl. rewrite Hl. now left.
Qed.

Lemma space_fp_char : fp_char 32%N.
Proof.
  split; [now apply lowered_basic|].
  split; [reflexivity|]. split; [reflexivity|]. split.
  - apply orb_true_r.
  - now apply isdigit_space.
Qed.

Lemma clean_fp_char (s : pystr) (c : codepoint) : In c (clean s) -> fp_char c.
Proof.
  unfold clean, drop_digits, keep_word_space. intros H.
  apply filter_In in H. destruct H as [H Hd].
  apply filter_In in H. destruct H as [H Hw].
  apply strip_noise_In in H. rewrite map_map in H.
  apply in_map_iff in H. destruct H as [c0 [Hc Hc0]].
  destruct (norm_normal c0) as [Ha [Ht Hcases]]. rewrite Hc in Ha, Ht, Hcases.
  split; [|repeat split; auto; now apply negb_true_iff].
  destruct Hcases as [->|[->| ->]].
  - now exists s.
  - now apply lowered_basic.
  - now apply lowered_basic.
Qed.

(** Cleaning changes nothing in text made of fingerprint characters that
    holds no noise word. *)
Lemma clean_fixed (t : pystr) :
  (forall c, In c t -> fp_char c) -> noise_free t -> clean t = t.
Proof.
  intros Hc Hn. unfold clean.
  rewrite (lower_fixed t) by (intros c H; apply (Hc c H)).
  rewrite (map_fixed norm_alif t) by (intros c H; apply (Hc c H)).
  rewrite (map_fixed norm_teh t) by (intros c H; apply (Hc c H)).
  rewrite (strip_noise_free t Hn).
  unfold drop_digits, keep_word_space.
  rewrite (filter_all _ t) by (intros c H; apply (Hc c H)).
  apply filter_all. intros c H. apply negb_true_iff. apply (Hc c H).
Qed.

(** The fingerprint: the sorted tokens of the cleaned text, one space
    between them. *)
Lemma fingerprint_join (s : pystr) :
  _fingerprint (VStr s) = join [32%N] (sorted (split (clean s))).
Proof.
  unfold _fingerprint. apply strip_join.
  apply (Permutation_Forall (Permutation_sym (sorted_is_perm _))).
  apply split_tokens.
Qed.

Lemma fingerprint_fp_char (s : pystr) (c : codepoint) :
  In c (_fingerprint (VStr s)) -> fp_char c.
Proof.
  rewrite fingerprint_join. intros H. apply join_chars in H.
  destruct H as [->|[t [Ht Hc]]]; [apply space_fp_char|].
  apply (Permutation_in _ (sorted_is_perm _)) in Ht.
  apply (clean_fp_char s). now apply (split_chars _ t).
Qed.

End IdempotenceFacts.

(** ** The fingerprint of a fingerprint *)

Section IdempotenceProof.
Context {U : Unicode} {L : UnicodeLaws U}.

Lemma fingerprint_fixed (s : pystr) :
  noise_free (_fingerprint (VStr s)) ->
  _fingerprint (VStr (_fingerprint (VStr s))) = _fingerprint (VStr s).
Proof.
  intros Hn.
  rewrite (fingerprint_join (_fingerprint (VStr s))).
  rewrite (clean_fixed (_fingerprint (VStr s)) (fingerprint_fp_char s) Hn).
  rewrite (fingerprint_join s) at 1.
  rewrite split_join.
  - now rewrite sorted_idem, <- fingerprint_join.
  - apply (Permutation_Forall (Permutation_sym (sorted_is_perm _))).
    apply split_tokens.
Qed.

End IdempotenceProof.

(** How many characters of a text are not whitespace. *)
Lemma weight_filter (p : codepoint -> bool) (s : pystr) :
  (weight (filter p s) <= weight s)%nat.
Proof.
  unfold weight. induction s as [|c s IH]; simpl; [lia|].
  destruct (p c); simpl; destruct (nonspace c); simpl; lia.
Qed.

Lemma weight_remove_from (w s : pystr) :
  forall k, (weight (remove_from w k s) <= weight s)%nat.
Proof.
  unfold weight. induction s as [|c s IH]; intros k; simpl; [lia|].
  destruct k as [|k].
  - destruct (starts_with w (c :: s)).
    + specialize (IH (List.length w - 1)%nat). destruct (nonspace c); simpl; lia.
    + specialize (IH 0%nat). simpl. destruct (nonspace c); simpl; lia.
  - specialize (IH k). destruct (nonspace c); simpl; lia.
Qed.

Lemma weight_remove_all (w s : pystr) :
  (weight (remove_all w s) <= weight s)%nat.
Proof. destruct w; [simpl; lia | apply weight_remove_from]. Qed.

(** Removing a word that occurs takes characters away. *)
Lemma weight_remove_present (w s : pystr) :
  token w -> contains w s = true ->
  (weight (remove_all w s) < weight s)%nat.
Proof.
  intros [Hne Hw]. destruct w as [|x w]; [easy|]. unfold remove_all.
  simpl in Hw. apply andb_true_iff in Hw. destruct Hw as [Hx _].
  induction s as [|c s IH]; [discriminate|].
  cbn [contains remove_from]. intros H.
  destruct (starts_with (x :: w) (c :: s)) eqn:E.
  - pose proof (weight_remove_from (x :: w) s (List.length (x :: w) - 1)) as Hle.
    simpl in E. apply andb_true_iff in E. destruct E as [E _].
    apply N.eqb_eq in E. subst c. unfold weight in *.
    cbn [filter]. rewrite Hx. cbn [List.length] in *. lia.
  - simpl in H. specialize (IH H). unfold weight in *. cbn [filter].
    destruct (nonspace c); cbn [List.length]; lia.
Qed.

Lemma noise_tokens : Forall token NOISE.
Proof. unfold NOISE. repeat constructor; discriminate. Qed.

Lemma weight_strip_noise_le (s : pystr) :
  (weight (strip_noise s) <= weight s)%nat.
Proof.
  unfold strip_noise. revert s. induction NOISE as [|w ws IH]; intros s; simpl.
  - lia.
  - specialize (IH (remove_all w s)). pose proof (weight_remove_all w s). lia.
Qed.

Lemma weight_strip_noise (s : pystr) :
  ~ noise_free s -> (weight (strip_noise s) < weight s)%nat.
Proof.
  unfold noise_free, strip_noise. pose proof noise_tokens as Ht. revert s.
  induction Ht as [|w ws Hw Hws IH]; intros s Hnot.
  - exfalso. apply Hnot. intros w [].
  - simpl. destruct (contains w s) eqn:E.
    + pose proof (weight_remove_present w s Hw E) as Hlt.
      assert (Hle : (weight (fold_left (fun t w0 => remove_all w0 t) ws (remove_all w s))
                     <= weight (remove_all w s))%nat).
      { clear. generalize (remove_all w s). induction ws as [|v vs IHv]; intros t; simpl.
        - lia.
        - specialize (IHv (remove_all v t)). pose proof (weight_remove_all v t). lia. }
      lia.
    + rewrite (remove_all_absent w s E). apply IH.
      intros Hfree. apply Hnot. intros w' [<-|Hw']; [exact E | now apply Hfree].
Qed.

Lemma weight_emit (cur : pystr) :
  List.length (flat_map (filter nonspace) (emit cur)) = weight cur.
Proof.
  unfold weight. destruct cur; simpl; [reflexivity | now rewrite app_nil_r].
Qed.

Lemma weight_cons (c : codepoint) (s : pystr) :
  weight (c :: s) = ((if isspace c then 0 else 1) + weight s)%nat.
Proof. unfold weight, nonspace. simpl. now destruct (isspace c). Qed.

Lemma weight_app (a b : pystr) : weight (a ++ b) = (weight a + weight b)%nat.
Proof. unfold weight. now rewrite filter_app, length_app. Qed.

Lemma weight_split_from (s : pystr) :
  forall cur,
  List.length (flat_map (filter nonspace) (split_from cur s)) =
  (weight cur + weight s)%nat.
Proof.
  induction s as [|c s IH]; intros cur; cbn [split_from].
  - rewrite weight_emit. unfold weight. simpl. lia.
  - rewrite weight_cons. destruct (isspace c) eqn:Hc.
    + rewrite flat_map_app, length_app, weight_emit. unfold pystr in *.
      rewrite (IH []).
      unfold weight at 2. simpl. lia.
    + rewrite (IH (cur ++ [c])), weight_app, weight_cons, Hc.
      unfold weight at 2. simpl. lia.
Qed.

Lemma weight_join (l : list pystr) :
  weight (join [32%N] l) = List.length (flat_map (filter nonspace) l).
Proof.
  induction l as [|x l IH]; [reflexivity|].
  destruct l as [|y l].
  - unfold weight. simpl. now rewrite app_nil_r.
  - rewrite join_cons by easy. rewrite weight_app, weight_cons, IH.
    change (flat_map (filter nonspace) (x :: y :: l))
      with (filter nonspace x ++ flat_map (filter nonspace) (y :: l)).
    rewrite length_app. unfold weight. simpl. lia.
Qed.

Section IdempotenceConverse.
Context {U : Unicode} {L : UnicodeLaws U}.

Lemma weight_fingerprint (s : pystr) :
  weight (_fingerprint (VStr s)) = weight (clean s).
Proof.
  rewrite fingerprint_join, weight_join.
  rewrite (Permutation_length
             (Permutation_flat_map (filter nonspace) (sorted_is_perm (split (clean s))))).
  unfold split. now rewrite weight_split_from.
Qed.

(** A fingerprint that holds a noise word loses it when fingerprinted
    again. *)
Lemma fingerprint_shrinks (s : pystr) :
  ~ noise_free (_fingerprint (VStr s)) ->
  (weight (_fingerprint (VStr (_fingerprint (VStr s)))) <
   weight (_fingerprint (VStr s)))%nat.
Proof.
  intros Hnot. set (t := _fingerprint (VStr s)) in *.
  rewrite (weight_fingerprint t). unfold clean.
  assert (Hc : forall c, In c t -> fp_char c) by apply fingerprint_fp_char.
  rewrite (lower_fixed t) by (intros c H; apply (Hc c H)).
  rewrite (map_fixed norm_alif t) by (intros c H; apply (Hc c H)).
  rewrite (map_fixed norm_teh t) by (intros c H; apply (Hc c H)).
  unfold drop_digits, keep_word_space.
  pose proof (weight_strip_noise t Hnot).
  pose proof (weight_filter (fun c => isword c || isspace c) (strip_noise t)).
  pose proof (weight_filter (fun c => negb (isdigit c))
                (filter (fun c => isword c || isspace c) (strip_noise t))).
  lia.
Qed.

End IdempotenceConverse.

Lemma noise_free_dec (t : pystr) : {noise_free t} + {~ noise_free t}.
Proof.
  unfold noise_free. induction NOISE as [|w ws [IH|IH]].
  - left. intros w [].
  - destruct (contains w t) eqn:E.
    + right. intros H. specialize (H w (or_introl eq_refl)). congruence.
    + left. intros w' [<-|Hw']; [exact E | now apply IH].
  - right. intros H. apply IH. intros w' Hw'. apply H. now right.
Qed.

(** C7, as the code has it. The fingerprint of a fingerprint is that
    fingerprint exactly when it holds none of the noise words. *)
Theorem fingerprint_idempotent (U : Unicode) (L : UnicodeLaws U) (s : pystr) :
  _fingerprint (VStr (_fingerprint (VStr s))) = _fingerprint (VStr s) <->
  noise_free (_fingerprint (VStr s)).
Proof.
  split.
  - intros Heq. destruct (noise_free_dec (_fingerprint (VStr s))) as [H|H];
      [exact H|].
    apply fingerprint_shrinks in H. rewrite Heq in H. lia.
  - apply fingerprint_fixed.
Qed.

Lemma fingerprint_idempotent_witness :
  _fingerprint (U := basic_unicode)
    (VStr (_fingerprint (U := basic_unicode) (VStr (py "Chanel No 5 100ml")))) =
  _fingerprint (U := basic_unicode) (VStr (py "Chanel No 5 100ml")).
Proof.
  apply (proj2 (@fingerprint_idempotent basic_unicode basic_unicode_laws
                  (py "Chanel No 5 100ml"))).
  intros w Hw. unfold NOISE in Hw. simpl in Hw.
  repeat (destruct Hw as [<-|Hw]; [reflexivity|]). destruct Hw.
Defined.

(** C7, as the specification words it, fails: the fingerprint of
    "Dior E.D.P" is "dior edp", whose fingerprint is "dior". *)
Lemma fingerprint_not_idempotent :
  _fingerprint (U := basic_unicode) (VStr (py "Dior E.D.P")) = py "dior edp" /\
  _fingerprint (U := basic_unicode) (VStr (py "dior edp")) = py "dior" /\
  _fingerprint (U := basic_unicode)
    (VStr (_fingerprint (U := basic_unicode) (VStr (py "Dior E.D.P")))) <>
  _fingerprint (U := basic_unicode) (VStr (py "Dior E.D.P")).
Proof. repeat split. vm_compute. discriminate. Qed.

(* ================================================================== *)
(** * The column guess *)
(* ================================================================== *)

Section GuessFacts.
Context {U : Unicode} {B : Builtins}.

Lemma last_header_some (f : pystr -> bool) (cols : list pyval) (j : nat) :
  last_header f cols = Some j ->
  header_at f cols j /\
  forall i, (j < i)%nat -> ~ header_at f cols i.
Proof.
  revert j. induction cols as [|c cols IH]; intros j; simpl; [discriminate|].
  destruct (last_header f cols) as [k|] eqn:E.
  - intros [= <-]. destruct (IH k eq_refl) as [Hk Hlast]. split.
    + exact Hk.
    + intros [|i] Hi; [lia|]. apply Hlast. lia.
  - destruct (f (lower (py_str c))) eqn:Hc; [|discriminate].
    intros [= <-]. split.
    + exists c. now split.
    + intros [|i] Hi [c' [Hn Hf]]; [lia|]. simpl in Hn.
      clear Hi. revert i Hn. clear IH.
      induction cols as [|d cols IHc]; intros i Hn.
      * now destruct i.
      * simpl in E. destruct (last_header f cols) eqn:E'; [discriminate|].
        destruct (f (lower (py_str d))) eqn:Hd; [discriminate|].
        destruct i as [|i]; simpl in Hn.
        -- injection Hn as ->. congruence.
        -- now apply (IHc eq_refl i).
Qed.

Lemma last_header_none (f : pystr -> bool) (cols : list pyval) :
  last_header f cols = None -> forall i, ~ header_at f cols i.
Proof.
  induction cols as [|c cols IH]; simpl; intros H i [c' [Hn Hf]].
  - now destruct i.
  - destruct (last_header f cols) eqn:E; [discriminate|].
    destruct (f (lower (py_str c))) eqn:Hc; [discriminate|].
    destruct i as [|i]; simpl in Hn.
    + injection Hn as ->. congruence.
    + apply (IH eq_refl i). now exists c'.
Qed.

(** The loop over the columns, from position [i] on. *)
Lemma guess_loop (cols : list pyval) :
  forall i n p,
  fold_left guess_step cols (i, n, p) =
  ((i + List.length cols)%nat,
   match last_header is_name_header cols with Some j => (i + j)%nat | None => n end,
   match last_header is_price_header cols with Some j => (i + j)%nat | None => p end).
Proof.
  induction cols as [|c cols IH]; intros i n p; simpl.
  - f_equal. f_equal. lia.
  - rewrite IH. f_equal; [f_equal|].
    + lia.
    + destruct (last_header is_name_header cols) as [j|]; [lia|].
      destruct (is_name_header (lower (py_str c))); [lia | reflexivity].
    + destruct (last_header is_price_header cols) as [j|]; [lia|].
      destruct (is_price_header (lower (py_str c))); [lia | reflexivity].
Qed.

Lemma guess_columns_eq (df : DataFrame) :
  columns df <> [] ->
  _guess_columns df =
  Some (match last_header is_name_header (columns df) with
        | Some j => j | None => O end,
        match last_header is_price_header (columns df) with
        | Some j => j | None => (List.length (columns df) - 1)%nat end).
Proof.
  intros Hne. unfold _guess_columns.
  destruct (columns df) as [|c cols] eqn:E; [easy|].
  rewrite guess_loop. reflexivity.
Qed.

Lemma header_at_bound (f : pystr -> bool) (cols : list pyval) (i : nat) :
  header_at f cols i -> (i < List.length cols)%nat.
Proof.
  intros [c [Hn _]]. apply nth_error_Some. congruence.
Qed.

End GuessFacts.

(** X2. The name column is the last column whose header holds a name word,
    the first column when no header does; the price column is the last
    one whose header holds a price word, the last column when none
    does. *)
Theorem guess_columns_last_match (U : Unicode) (B : Builtins) (df : DataFrame)
    (n p : nat) :
  _guess_columns df = Some (n, p) ->
  ((header_at is_name_header (columns df) n /\
    forall i, (n < i)%nat -> ~ header_at is_name_header (columns df) i) \/
   (n = O /\ forall i, ~ header_at is_name_header (columns df) i)) /\
  ((header_at is_price_header (columns df) p /\
    forall i, (p < i)%nat -> ~ header_at is_price_header (columns df) i) \/
   (p = (List.length (columns df) - 1)%nat /\
    forall i, ~ header_at is_price_header (columns df) i)).
Proof.
  intros H.
  assert (Hne : columns df <> []).
  { intros E. apply guess_columns_none in E. congruence. }
  rewrite (guess_columns_eq df Hne) in H. injection H as <- <-. split.
  - destruct (last_header is_name_header (columns df)) as [j|] eqn:E.
    + left. now apply last_header_some.
    + right. split; [reflexivity | now apply last_header_none].
  - destruct (last_header is_price_header (columns df)) as [j|] eqn:E.
    + left. now apply last_header_some.
    + right. split; [reflexivity | now apply last_header_none].
Qed.

Lemma guess_columns_last_match_witness :
  _guess_columns (U := basic_unicode) (B := plain_builtins) catalogue_table =
    Some (1%nat, 3%nat) /\
  header_at (U := basic_unicode) (B := plain_builtins)
    is_name_header (columns catalogue_table) 1 /\
  header_at (U := basic_unicode) (B := plain_builtins)
    is_price_header (columns catalogue_table) 3.
Proof.
  split; [reflexivity|].
  destruct (@guess_columns_last_match basic_unicode plain_builtins
              catalogue_table 1 3 eq_refl) as [[[Hn _]|[Hn _]] [[Hp _]|[Hp _]]];
    try discriminate.
  now split.
Defined.

(** X1. The columns the guess returns are columns of the table: reading a
    row at them never leaves the table. *)
Theorem guess_columns_in_range (U : Unicode) (B : Builtins) (df : DataFrame)
    (n p : nat) :
  _guess_columns df = Some (n, p) ->
  (n < List.length (columns df))%nat /\ (p < List.length (columns df))%nat.
Proof.
  intros H.
  assert (Hlen : (0 < List.length (columns df))%nat).
  { destruct (columns df) eqn:E; [|simpl; lia].
    apply guess_columns_none in E. congruence. }
  assert (Hne : columns df <> []) by (destruct (columns df); [simpl in Hlen; lia | easy]).
  rewrite (guess_columns_eq df Hne) in H. injection H as <- <-. split.
  - destruct (last_header is_name_header (columns df)) as [j|] eqn:E; [|exact Hlen].
    apply (header_at_bound is_name_header). now apply last_header_some.
  - destruct (last_header is_price_header (columns df)) as [j|] eqn:E; [|lia].
    apply (header_at_bound is_price_header). now apply last_header_some.
Qed.

Lemma guess_columns_in_range_witness :
  (1 < List.length (columns catalogue_table))%nat /\
  (3 < List.length (columns catalogue_table))%nat.
Proof.
  exact (@guess_columns_in_range basic_unicode plain_builtins
           catalogue_table 1 3 eq_refl).
Defined.

(* ================================================================== *)
(** * What the loader keeps *)
(* ================================================================== *)

Section LoadedFacts.
Context {U : Unicode} {B : Builtins}.

Lemma digits_number_nonneg (ds : pystr) : (0 <= digits_number ds)%Z.
Proof.
  unfold digits_number.
  assert (H : forall acc, (0 <= acc)%Z ->
            (0 <= fold_left
                    (fun acc c => match digit_value c with
                                  | Some v => (10 * acc + Z.of_N v)%Z
                                  | None => acc
                                  end) ds acc)%Z).
  { induction ds as [|c ds IH]; intros acc Hacc; cbn [fold_left]; [exact Hacc|].
    apply IH. destruct (digit_value c) as [v|]; [|exact Hacc].
    pose proof (N2Z.is_nonneg v). lia. }
  apply H. lia.
Qed.

Lemma extract_size_nonneg (low : pystr) (size : Z) :
  extract_size low = Some size -> (0 <= size)%Z.
Proof.
  unfold extract_size. destruct (re_search_size low) as [ds|].
  - intros H. apply int_of_digits_value in H. subst size. apply digits_number_nonneg.
  - intros [= <-]. lia.
Qed.

Lemma classify_type_not_rejected (low : pystr) : classify_type low <> TRejected.
Proof.
  unfold classify_type.
  destruct (any_in SET low), (any_in HAIR_MIST low), (any_in BODY_MIST low),
    (any_in TESTER low); discriminate.
Qed.

(** A loaded product comes from a row that is kept. *)
Lemma loaded_from_row (df : DataFrame) (n p : nat) (products : list Product)
    (r : Product) :
  _guess_columns df = Some (n, p) ->
  _load_products df = Some products ->
  In r products ->
  exists row price size,
    In row (rows df) /\
    any_in REJECTED (lower (py_str (cell row n))) = false /\
    extract_size (lower (py_str (cell row n))) = Some size /\
    py_float (cell row p) = Value price /\
    r = {| p_name := py_str (cell row n);
           p_price := price;
           p_type := classify_type (lower (py_str (cell row n)));
           p_size := size;
           p_fp := _fingerprint (VStr (py_str (cell row n))) |}.
Proof.
  intros Hg Hload Hin. rewrite (load_products_rows df n p products Hg Hload) in Hin.
  apply in_flat_map in Hin. destruct Hin as [row [Hrow Hr]].
  rewrite row_products_spec in Hr.
  destruct (any_in REJECTED (lower (py_str (cell row n)))) eqn:Hrej; [easy|].
  destruct (extract_size (lower (py_str (cell row n)))) as [size|] eqn:Hs; [|easy].
  destruct (py_float (cell row p)) as [price| |] eqn:Hp; try easy.
  destruct Hr as [<-|[]]. now exists row, price, size.
Qed.

(** What a row whose turn returns gives. *)
Lemma load_row_kept (n p : nat) (row : list pyval) :
  row_loads n p row ->
  map p_name (row_products n p row) =
    (if row_kept n p row then [py_str (cell row n)] else []) /\
  map (fun r => Value (p_price r)) (row_products n p row) =
    (if row_kept n p row then [py_float (cell row p)] else []).
Proof.
  unfold row_loads. rewrite row_products_spec, load_row_spec. unfold row_kept.
  destruct (any_in REJECTED (lower (py_str (cell row n)))); simpl; [now split|].
  destruct (extract_size (lower (py_str (cell row n)))); [|now intros []].
  destruct (py_float (cell row p)); now split.
Qed.

End LoadedFacts.

(** X3. The loader keeps the order of the rows: whenever it returns, the
    names and the prices of the products are those of the rows that are
    kept (name not rejected, price read by [float]), in the order of the
    table, so there are at most as many products as rows. *)
Theorem load_products_order (U : Unicode) (B : Builtins) (df : DataFrame)
    (n p : nat) (products : list Product) :
  _guess_columns df = Some (n, p) ->
  _load_products df = Some products ->
  map p_name products =
    map (fun row => py_str (cell row n)) (filter (row_kept n p) (rows df)) /\
  map (fun r => Value (p_price r)) products =
    map (fun row => py_float (cell row p)) (filter (row_kept n p) (rows df)) /\
  (List.length products <= List.length (rows df))%nat.
Proof.
  intros Hg Hload.
  pose proof (load_products_loads df n p products Hg Hload) as Hall.
  rewrite (load_products_rows df n p products Hg Hload).
  induction (rows df) as [|row l IH]; [repeat split; simpl; lia|].
  apply Forall_cons_iff in Hall. destruct Hall as [Hrow Hall].
  destruct (IH Hall) as [IH1 [IH2 IH3]].
  simpl. rewrite !map_app, length_app, IH1, IH2.
  destruct (load_row_kept n p row Hrow) as [H1 H2]. rewrite H1, H2.
  assert (Hlen : (List.length (row_products n p row) <= 1)%nat).
  { rewrite <- (length_map p_name), H1. destruct (row_kept n p row); simpl; lia. }
  destruct (row_kept n p row); simpl; repeat split; lia.
Qed.

Lemma load_products_order_witness :
  map p_name
    [ {| p_name := py "Dior Sauvage 100ml"; p_price := Finite 300;
         p_type := TRetail; p_size := 100; p_fp := py "dior sauvage" |};
      {| p_name := py "Chanel Bleu Tester 50ml"; p_price := Finite 200;
         p_type := TTester; p_size := 50; p_fp := py "bleu chanel tester" |} ] =
  map (fun row => @py_str plain_builtins (cell row 1))
      (filter (row_kept (U := basic_unicode) (B := plain_builtins) 1 3)
              (rows catalogue_table)).
Proof.
  exact (proj1 (@load_products_order basic_unicode plain_builtins catalogue_table 1 3
                  _ eq_refl eq_refl)).
Defined.

(** X4. Every loaded product has one of the five types, a size that is not
    negative, a name that holds no rejection word, and the type, size and
    fingerprint that its own name gives. *)
Theorem loaded_product_invariant (U : Unicode) (B : Builtins) (df : DataFrame)
    (products : list Product) (r : Product) :
  _load_products df = Some products ->
  In r products ->
  p_type r <> TRejected /\
  (0 <= p_size r)%Z /\
  any_in REJECTED (lower (p_name r)) = false /\
  _classify (VStr (p_name r)) = Some (p_type r, p_size r, false) /\
  p_fp r = _fingerprint (VStr (p_name r)).
Proof.
  intros Hload Hin.
  destruct (_guess_columns df) as [[n p]|] eqn:Hg.
  - destruct (loaded_from_row df n p products r Hg Hload Hin)
      as [row [price [size [_ [Hrej [Hs [_ ->]]]]]]]. simpl.
    split; [apply classify_type_not_rejected|].
    split; [exact (extract_size_nonneg _ _ Hs)|].
    split; [exact Hrej|]. split; [|reflexivity].
    apply (classify_accepted (VStr (py_str (cell row n)))); assumption.
  - unfold _load_products in Hload. rewrite Hg in Hload. discriminate.
Qed.

Lemma loaded_product_invariant_witness :
  forall_products_ok
    (_load_products (U := basic_unicode) (B := plain_builtins) catalogue_table).
Proof.
  unfold forall_products_ok.
  destruct (_load_products (U := basic_unicode) (B := plain_builtins)
              catalogue_table) as [products|] eqn:E; [|exact I].
  apply Forall_forall. intros r Hr.
  exact (proj1 (proj2 (@loaded_product_invariant basic_unicode plain_builtins
                         catalogue_table products r E Hr))).
Defined.

(* ================================================================== *)
(** * The records of a run *)
(* ================================================================== *)

Lemma Qle_bool_eq (a b c d : Q) :
  ((a <= b)%Q <-> (c <= d)%Q) -> Qle_bool a b = Qle_bool c d.
Proof.
  intros H. destruct (Qle_bool a b) eqn:E1, (Qle_bool c d) eqn:E2; try reflexivity.
  - apply Qle_bool_iff, H, Qle_bool_iff in E1. congruence.
  - apply Qle_bool_iff, H, Qle_bool_iff in E2. congruence.
Qed.

Lemma float_ltb_asym (a b : pyfloat) :
  float_ltb a b = true -> float_ltb b a = false.
Proof.
  destruct a as [x|[|]|], b as [y|[|]|]; simpl; try easy.
  intros H. apply Qlt_bool_iff in H. apply Qlt_bool_false. now apply Qlt_le_weak.
Qed.

Lemma Qfloor_bounds (q : Q) :
  (inject_Z (Qfloor q) <= q)%Q /\ (q < inject_Z (Qfloor q + 1))%Q.
Proof. split; [apply Qfloor_le | apply Qlt_floor]. Qed.

Lemma round_half_even_choice (q : Q) :
  round_half_even q = Qfloor q \/
  (round_half_even q = (Qfloor q + 1)%Z /\ (1 # 2 <= q - inject_Z (Qfloor q))%Q).
Proof.
  unfold round_half_even.
  destruct (Qcompare (q - inject_Z (Qfloor q)) (1 # 2)) eqn:E.
  - apply Qeq_alt in E. destruct (Z.even (Qfloor q)); [now left|].
    right. split; [reflexivity|]. rewrite E. apply Qle_refl.
  - now left.
  - right. split; [reflexivity|]. apply Qgt_alt in E. now apply Qlt_le_weak.
Qed.

(** Rounding a number between two integers stays between them. *)
Lemma round_half_even_between (q : Q) (lo hi : Z) :
  (inject_Z lo <= q)%Q -> (q <= inject_Z hi)%Q ->
  (lo <= round_half_even q <= hi)%Z.
Proof.
  intros Hlo Hhi. destruct (Qfloor_bounds q) as [Hf1 Hf2].
  assert (Hlf : (lo <= Qfloor q)%Z).
  { apply Z.lt_succ_r. rewrite <- Z.add_1_r. rewrite Zlt_Qlt.
    apply Qle_lt_trans with q; assumption. }
  assert (Hfh : (Qfloor q <= hi)%Z).
  { rewrite Zle_Qle. apply Qle_trans with q; assumption. }
  destruct (round_half_even_choice q) as [->|[-> Hhalf]]; [lia|].
  split; [lia|].
  destruct (Z.eq_dec (Qfloor q) hi) as [E|E]; [|lia].
  exfalso. rewrite E in Hhalf. lra.
Qed.

Lemma round_half_even_lower (q : Q) (lo : Z) :
  (inject_Z lo <= q)%Q -> (lo <= round_half_even q)%Z.
Proof.
  intros Hlo. destruct (Qfloor_bounds q) as [Hf1 Hf2].
  assert (Hlf : (lo <= Qfloor q)%Z).
  { apply Z.lt_succ_r. rewrite <- Z.add_1_r. rewrite Zlt_Qlt.
    apply Qle_lt_trans with q; assumption. }
  destruct (round_half_even_choice q) as [->|[-> _]]; lia.
Qed.

Lemma pow2_pos (k : Z) : 0 < pow2 k.
Proof. unfold pow2. now apply Qpower_0_lt. Qed.

Lemma pow2_le (n m : Z) : (n <= m)%Z -> pow2 n <= pow2 m.
Proof. intros H. unfold pow2. apply Qpower_le_compat_l; [exact H | discriminate]. Qed.

Lemma pow2_inject (n : Z) : (0 <= n)%Z -> pow2 n == inject_Z (2 ^ n).
Proof. intros H. unfold pow2. now rewrite (Zpower_Qpower 2 n H). Qed.

(** The exponent found is not above the number. *)
Lemma ilog2_le (q : Q) : 0 < q -> pow2 (ilog2 q) <= q.
Proof.
  intros Hq. unfold ilog2.
  set (ln := Z.log2 (Qnum q)). set (ld := Z.log2 (Z.pos (Qden q))).
  destruct (Qle_bool (pow2 (ln - ld)) q) eqn:E; [now apply Qle_bool_iff|].
  assert (Hn : (0 < Qnum q)%Z).
  { destruct q as [n d]. unfold Qlt in Hq. simpl in *. lia. }
  destruct (Z.log2_spec (Qnum q) Hn) as [Hn1 _].
  destruct (Z.log2_spec (Z.pos (Qden q)) (Pos2Z.is_pos _)) as [_ Hd2].
  fold ln in Hn1. fold ld in Hd2.
  assert (Hln : (0 <= ln)%Z) by apply Z.log2_nonneg.
  assert (Hld : (0 <= ld)%Z) by apply Z.log2_nonneg.
  replace (ln - ld - 1)%Z with (ln - (ld + 1))%Z by lia.
  unfold pow2 at 1. rewrite Qpower_minus by discriminate.
  fold (pow2 ln). fold (pow2 (ld + 1)).
  rewrite (pow2_inject ln Hln), (pow2_inject (ld + 1)) by lia.
  replace (Z.succ ld) with (ld + 1)%Z in Hd2 by lia.
  assert (HB : (0 < 2 ^ (ld + 1))%Z) by (apply Z.pow_pos_nonneg; lia).
  apply Qle_shift_div_r.
  - rewrite <- (Zlt_Qlt 0). exact HB.
  - destruct q as [n d]. unfold Qle. simpl in *. nia.
Qed.

Lemma Qle_bool_false (a b : Q) : Qle_bool a b = false <-> b < a.
Proof.
  split.
  - intros H. apply Qnot_le_lt. intros Hle. apply Qle_bool_iff in Hle. congruence.
  - intros H. destruct (Qle_bool a b) eqn:E; [|reflexivity].
    apply Qle_bool_iff in E. exfalso. now apply (Qlt_not_le _ _ H).
Qed.

(** Rounding a multiple of [2^-1074] keeps its sign: no difference of
    two binary64 values is rounded to zero. *)
Lemma round_binary64_sign (q : Q) (j : Z) :
  q == inject_Z j * pow2 (-1074) ->
  float_neg (round_binary64 q) = negb (Qle_bool 0 q) /\
  float_pos (round_binary64 q) = negb (Qle_bool q 0).
Proof.
  intros Hj. unfold round_binary64.
  destruct (Qeq_bool q 0) eqn:E0.
  { apply Qeq_bool_iff in E0. cbn [float_neg float_pos].
    assert (H1 : Qle_bool 0 q = true) by (apply Qle_bool_iff; rewrite E0; apply Qle_refl).
    assert (H2 : Qle_bool q 0 = true) by (apply Qle_bool_iff; rewrite E0; apply Qle_refl).
    rewrite H1, H2. split; reflexivity. }
  assert (Hq : ~ q == 0).
  { intros H. apply Qeq_bool_iff in H. congruence. }
  set (a := Qabs q).
  assert (Ha : 0 < a).
  { unfold a. destruct (Qlt_le_dec q 0) as [H|H].
    - rewrite (Qabs_neg q) by (now apply Qlt_le_weak). lra.
    - rewrite (Qabs_pos q H).
      destruct (Qle_lt_or_eq _ _ H) as [H'|H']; [exact H'|].
      exfalso. apply Hq. now symmetry. }
  set (k := (Z.max (ilog2 a) (-1022) - 52)%Z).
  assert (Hk : pow2 k <= a).
  { destruct (Z.max_spec (ilog2 a) (-1022)) as [[Hlt Hm]|[Hge Hm]].
    - (* below the least exponent *)
      assert (Ek : k = (-1074)%Z) by (unfold k; lia). rewrite Ek.
      assert (Eabs : a == inject_Z (Z.abs j) * pow2 (-1074)).
      { unfold a. rewrite Hj, Qabs_Qmult.
        rewrite (Qabs_pos (pow2 (-1074))) by (apply Qlt_le_weak, pow2_pos).
        apply Qmult_comp; [|reflexivity].
        unfold Qabs, inject_Z. simpl. reflexivity. }
      assert (Hj1 : (1 <= Z.abs j)%Z).
      { destruct (Z.eq_dec j 0) as [->|Hne]; [|lia].
        exfalso. apply Hq. rewrite Hj. unfold Qeq. simpl. reflexivity. }
      rewrite Eabs. rewrite <- (Qmult_1_l (pow2 (-1074))) at 1.
      apply Qmult_le_compat_r; [|apply Qlt_le_weak, pow2_pos].
      rewrite <- (Zle_Qle 1). exact Hj1.
    - apply Qle_trans with (pow2 (ilog2 a)); [|now apply ilog2_le].
      apply pow2_le. unfold k. lia. }
  set (m := round_half_even (a / pow2 k)).
  assert (Hm : (1 <= m)%Z).
  { apply round_half_even_lower. apply Qle_shift_div_l; [apply pow2_pos|].
    now rewrite Qmult_1_l. }
  set (v := Qred (inject_Z m * pow2 k)).
  assert (Hv : 0 < v).
  { unfold v. rewrite Qred_correct.
    apply Qmult_lt_0_compat; [|apply pow2_pos].
    rewrite <- (Zlt_Qlt 0). lia. }
  assert (Hv1 : Qle_bool 0 v = true) by (apply Qle_bool_iff; now apply Qlt_le_weak).
  assert (Hv2 : Qle_bool v 0 = false) by (now apply Qle_bool_false).
  destruct (Qle_bool 0 q) eqn:Eq.
  - assert (Hq0 : Qle_bool q 0 = false).
    { apply Qle_bool_false. apply Qle_bool_iff in Eq.
      destruct (Qle_lt_or_eq _ _ Eq) as [H|H]; [exact H|]. exfalso. apply Hq. now symmetry. }
    rewrite Hq0. destruct (Qle_bool (pow2 1024) v); cbn [float_neg float_pos negb].
    + split; reflexivity.
    + rewrite Hv1, Hv2. split; reflexivity.
  - assert (Hq0 : Qle_bool q 0 = true).
    { apply Qle_bool_iff. apply Qle_bool_false in Eq. now apply Qlt_le_weak. }
    rewrite Hq0. destruct (Qle_bool (pow2 1024) v); cbn [float_neg float_pos negb].
    + split; reflexivity.
    + assert (Hn1 : Qle_bool 0 (Qred (- v)) = false).
      { apply Qle_bool_false. rewrite Qred_correct. lra. }
      assert (Hn2 : Qle_bool (Qred (- v)) 0 = true).
      { apply Qle_bool_iff. rewrite Qred_correct. lra. }
      rewrite Hn1, Hn2. split; reflexivity.
Qed.

(** The decision is read off the comparison of the two prices. *)
Lemma decide_sub (c m : pyfloat) :
  binary64_grid c -> binary64_grid m ->
  decide (float_sub c m) =
  if float_ltb c m then Losing else if float_ltb m c then Leading else Tied.
Proof.
  intros Hc Hm. unfold decide.
  destruct c as [x|[|]|], m as [y|[|]|]; try reflexivity.
  destruct Hc as [jx Hx], Hm as [jy Hy].
  assert (Hd : x - y == inject_Z (jx - jy) * pow2 (-1074)).
  { rewrite Hx, Hy. unfold Zminus. rewrite inject_Z_plus, inject_Z_opp. ring. }
  cbn [float_sub float_ltb].
  destruct (round_binary64_sign (x - y) (jx - jy) Hd) as [-> ->].
  unfold Qlt_bool.
  rewrite (Qle_bool_eq 0 (x - y) y x) by (split; intros; lra).
  rewrite (Qle_bool_eq (x - y) 0 x y) by (split; intros; lra).
  reflexivity.
Qed.

Section RecordFacts.
Context {U : Unicode} {B : Builtins}.
Variable W : pystr -> pystr -> Q.

Lemma match_pair_length (min_score : Z) (comp_name : pystr)
    (comp_products : list Product) (my_p : Product) :
  (List.length (match_pair W min_score comp_name comp_products my_p) <= 1)%nat.
Proof.
  destruct (Z.eq_dec (p_size my_p) 0) as [Hz|Hnz].
  { rewrite (match_pair_size0 W min_score comp_name comp_products my_p Hz). simpl. lia. }
  destruct (candidates_of comp_products my_p) eqn:Ec.
  { rewrite (match_pair_no_candidate W min_score comp_name comp_products my_p Ec).
    simpl. lia. }
  destruct (match_pair_spec W min_score comp_name comp_products my_p Hnz)
    as [best [_ [_ ->]]]; [now rewrite Ec|].
  destruct (Qlt_bool _ _); simpl; lia.
Qed.

Lemma file_matches_length (min_score : Z) (my_products : list Product)
    (cp : pystr * list Product) :
  (List.length (file_matches W min_score my_products cp)
   <= List.length my_products)%nat.
Proof.
  unfold file_matches. induction my_products as [|p ps IH]; simpl; [lia|].
  rewrite length_app.
  pose proof (match_pair_length min_score (fst cp) (snd cp) p). lia.
Qed.

(** Where a record of a run comes from. *)
Lemma run_record (my_file : File) (cfs : list File) (min_score : Z)
    (out : list MatchRecord) (r : MatchRecord) :
  run_full_analysis W my_file cfs min_score = Some out ->
  In r out ->
  exists my_products cf comp_products my_p best,
    _load_products (f_table my_file) = Some my_products /\
    In my_p my_products /\
    In cf cfs /\
    _load_products (f_table cf) = Some comp_products /\
    In best (candidates_of comp_products my_p) /\
    (inject_Z min_score <= W (p_fp my_p) (p_fp best))%Q /\
    r = {| m_my_name := p_name my_p;
           m_my_type := p_type my_p;
           m_my_price := p_price my_p;
           m_competitor := rsplit_dot_head (f_name cf);
           m_comp_product := p_name best;
           m_comp_price := p_price best;
           m_size := p_size my_p;
           m_diff := round2 (float_sub (p_price best) (p_price my_p));
           m_decision := decide (float_sub (p_price best) (p_price my_p));
           m_score := round_half_even (W (p_fp my_p) (p_fp best)) |}.
Proof.
  intros Hrun Hin.
  destruct (run_inv W _ _ _ _ Hrun) as [my_products [comps [Hmy [Hcomps ->]]]].
  apply in_flat_map in Hin. destruct Hin as [cp [Hcp Hin]].
  unfold file_matches in Hin.
  apply in_flat_map in Hin. destruct Hin as [my_p [Hp Hin]].
  destruct (load_file_In _ _ _ Hcomps Hcp) as [cf [Hcf [Hname Hload]]].
  destruct cp as [comp_name comp_products]. simpl in Hname, Hload, Hin. subst comp_name.
  change (fst (rsplit_dot_head (f_name cf), comp_products))
    with (rsplit_dot_head (f_name cf)) in *.
  change (snd (rsplit_dot_head (f_name cf), comp_products)) with comp_products in *.
  destruct (Z.eq_dec (p_size my_p) 0) as [Hz|Hnz].
  { now rewrite (match_pair_size0 W min_score _ comp_products my_p Hz) in Hin. }
  destruct (candidates_of comp_products my_p) as [|c0 cs] eqn:Ec.
  { now rewrite (match_pair_no_candidate W min_score _ comp_products my_p Ec) in Hin. }
  destruct (match_pair_spec W min_score (rsplit_dot_head (f_name cf))
              comp_products my_p Hnz)
    as [best [Hbest [_ Heq]]]; [now rewrite Ec|].
  rewrite Heq in Hin.
  destruct (Qlt_bool _ _) eqn:Elt; [easy|].
  apply Qlt_bool_false in Elt.
  destruct Hin as [<-|[]].
  exists my_products, cf, comp_products, my_p, best.
  rewrite Ec in *. repeat split; auto.
Qed.

End RecordFacts.

(** X5. The difference of a record is the competitor's price minus the
    merchant's, rounded as [float] arithmetic rounds it and then to two
    decimals; and for prices that are binary64 values the decision says how
    the two prices compare: Losing when the competitor's price is below
    the merchant's, Leading when it is above, Tied otherwise (equal
    prices, or a price that is not a number). *)
Theorem run_decision (U : Unicode) (B : Builtins) (W : pystr -> pystr -> Q)
    (my_file : File) (comp_files : list File) (min_score : Z)
    (out : list MatchRecord) (r : MatchRecord) :
  run_full_analysis W my_file comp_files min_score = Some out ->
  In r out ->
  binary64_grid (m_my_price r) ->
  binary64_grid (m_comp_price r) ->
  m_diff r = round2 (float_sub (m_comp_price r) (m_my_price r)) /\
  (m_decision r = Losing <-> float_ltb (m_comp_price r) (m_my_price r) = true) /\
  (m_decision r = Leading <-> float_ltb (m_my_price r) (m_comp_price r) = true) /\
  (m_decision r = Tied <->
   float_ltb (m_comp_price r) (m_my_price r) = false /\
   float_ltb (m_my_price r) (m_comp_price r) = false).
Proof.
  intros Hrun Hin.
  destruct (run_record W _ _ _ _ _ Hrun Hin)
    as [my_products [cf [comp_products [my_p [best [_ [_ [_ [_ [_ [_ ->]]]]]]]]]]].
  simpl. intros Hmy Hcomp. split; [reflexivity|]. rewrite (decide_sub _ _ Hcomp Hmy).
  destruct (float_ltb (p_price best) (p_price my_p)) eqn:E1.
  - rewrite (float_ltb_asym _ _ E1). repeat split; intros; intuition congruence.
  - destruct (float_ltb (p_price my_p) (p_price best)) eqn:E2;
      repeat split; intros; intuition congruence.
Qed.

Lemma integer_on_grid (z : Z) : binary64_grid (Finite (inject_Z z)).
Proof.
  exists (z * 2 ^ 1074)%Z. rewrite inject_Z_mult, <- (pow2_inject 1074) by lia.
  rewrite <- Qmult_assoc. unfold pow2. rewrite <- Qpower_plus by discriminate.
  change (1074 + -1074)%Z with 0%Z. rewrite Qpower_0_r. ring.
Qed.

Lemma run_decision_witness :
  exists out,
    run_full_analysis (U := basic_unicode) (B := plain_builtins)
      same_ratio shop_file rival_files 75 = Some out /\
    map m_decision out = [Leading; Losing; Tied; Leading] /\
    Forall (fun r => m_decision r = Losing <->
                     float_ltb (m_comp_price r) (m_my_price r) = true) out.
Proof.
  destruct (run_full_analysis (U := basic_unicode) (B := plain_builtins)
              same_ratio shop_file rival_files 75) as [out|] eqn:E;
    [|vm_compute in E; discriminate E].
  exists out. split; [reflexivity|].
  assert (Hgrid : Forall (fun r => binary64_grid (m_my_price r) /\
                                   binary64_grid (m_comp_price r)) out).
  { pose proof E as E'. vm_compute in E'. injection E' as <-.
    repeat constructor; apply integer_on_grid. }
  split.
  - vm_compute in E. injection E as <-. reflexivity.
  - apply Forall_forall. intros r Hr.
    rewrite Forall_forall in Hgrid. destruct (Hgrid r Hr) as [Hmy Hcomp].
    exact (proj1 (proj2 (@run_decision basic_unicode plain_builtins same_ratio
                           shop_file rival_files 75 out r E Hr Hmy Hcomp))).
Defined.

(** The arithmetic is that of binary64: 395.525 - 8.03 is rounded up to
    a value above 387.495, so its rounding to two decimals is 387.5; an
    integer above [2^53] is rounded, and one beyond the range raises. *)
Example difference_rounding :
  float_sub (round_binary64 (395525 # 1000)) (round_binary64 (803 # 100)) =
    Finite (3408442065640489 # 8796093022208) /\
  round2 (float_sub (round_binary64 (395525 # 1000)) (round_binary64 (803 # 100))) =
    Finite (775 # 2) /\
  float_of_int (2 ^ 53 + 1) = Value (Finite (inject_Z (2 ^ 53))) /\
  float_of_int (10 ^ 400) = Overflow.
Proof. repeat split; vm_compute; reflexivity. Qed.

(** X6. The confidence of a record is at least [min_score], and at most any
    bound the scorer keeps (100 for WRatio). *)
Theorem run_score_bounds (U : Unicode) (B : Builtins) (W : pystr -> pystr -> Q)
    (hi : Z) (my_file : File) (comp_files : list File) (min_score : Z)
    (out : list MatchRecord) (r : MatchRecord) :
  (forall a b, (W a b <= inject_Z hi)%Q) ->
  run_full_analysis W my_file comp_files min_score = Some out ->
  In r out ->
  (min_score <= m_score r <= hi)%Z.
Proof.
  intros HW Hrun Hin.
  destruct (run_record W _ _ _ _ _ Hrun Hin)
    as [my_products [cf [comp_products [my_p [best [_ [_ [_ [_ [_ [Hmin ->]]]]]]]]]]].
  simpl. now apply round_half_even_between.
Qed.

Lemma same_ratio_bound (a b : pystr) : (same_ratio a b <= inject_Z 100)%Q.
Proof. unfold same_ratio. destruct (str_eqb a b); vm_compute; discriminate. Qed.

Lemma run_score_bounds_witness :
  exists out,
    run_full_analysis (U := basic_unicode) (B := plain_builtins)
      same_ratio shop_file rival_files 75 = Some out /\
    Forall (fun r => (75 <= m_score r <= 100)%Z) out.
Proof.
  destruct (run_full_analysis (U := basic_unicode) (B := plain_builtins)
              same_ratio shop_file rival_files 75) as [out|] eqn:E;
    [|vm_compute in E; discriminate E].
  exists out. split; [reflexivity|].
  apply Forall_forall. intros r Hr.
  exact (@run_score_bounds basic_unicode plain_builtins same_ratio 100
           shop_file rival_files 75 out r same_ratio_bound E Hr).
Defined.

(** X7. A run gives at most one record for each merchant product and each
    competitor file. *)
Theorem run_count_bound (U : Unicode) (B : Builtins) (W : pystr -> pystr -> Q)
    (my_file : File) (comp_files : list File) (min_score : Z)
    (my_products : list Product) (out : list MatchRecord) :
  _load_products (f_table my_file) = Some my_products ->
  run_full_analysis W my_file comp_files min_score = Some out ->
  (List.length out <= List.length my_products * List.length comp_files)%nat.
Proof.
  intros Hmy Hrun.
  destruct (run_inv W _ _ _ _ Hrun) as [my_products' [comps [Hmy' [Hcomps ->]]]].
  assert (my_products' = my_products) as -> by congruence.
  assert (Hlen : List.length comp_files = List.length comps).
  { rewrite <- (length_map load_file), Hcomps. apply length_map. }
  rewrite Hlen. clear.
  induction comps as [|cp comps IH]; simpl; [lia|].
  rewrite length_app, Nat.mul_succ_r.
  pose proof (file_matches_length W min_score my_products cp). lia.
Qed.

Lemma run_count_bound_witness :
  exists out,
    run_full_analysis (U := basic_unicode) (B := plain_builtins)
      same_ratio shop_file rival_files 75 = Some out /\
    (List.length out <= 2 * 2)%nat.
Proof.
  destruct (run_full_analysis (U := basic_unicode) (B := plain_builtins)
              same_ratio shop_file rival_files 75) as [out|] eqn:E;
    [|vm_compute in E; discriminate E].
  exists out. split; [reflexivity|].
  destruct (_load_products (U := basic_unicode) (B := plain_builtins)
              (f_table shop_file)) as [my_products|] eqn:Hmy;
    [|vm_compute in Hmy; discriminate Hmy].
  pose proof (@run_count_bound basic_unicode plain_builtins same_ratio shop_file
                rival_files 75 my_products out Hmy E) as Hb.
  vm_compute in Hmy. injection Hmy as <-. exact Hb.
Defined.

(* ================================================================== *)
(** * When a run fails, and which competitor it reports *)
(* ================================================================== *)

Section FailureFacts.
Context {U : Unicode} {B : Builtins}.

Lemma load_row_raises (n p : nat) (row : list pyval) :
  load_row n p [] row = None <-> row_raises n p row.
Proof.
  rewrite load_row_spec. unfold row_raises, extract_size. cbv zeta.
  destruct (any_in REJECTED (lower (py_str (cell row n)))).
  { split; [discriminate | now intros [H _]]. }
  destruct (re_search_size (lower (py_str (cell row n)))) as [ds|].
  - unfold int_of_digits.
    destruct (Z.leb_spec (Z.of_nat (List.length ds)) INT_MAX_STR_DIGITS) as [Hle|Hgt].
    + destruct (py_float (cell row p)).
      * split; [discriminate|].
        intros [_ [[ds' [[= <-] H]]|H]]; [lia | discriminate].
      * split; [discriminate|].
        intros [_ [[ds' [[= <-] H]]|H]]; [lia | discriminate].
      * split; [|reflexivity]. intros _. split; [reflexivity | now right].
    + split; [|reflexivity]. intros _. split; [reflexivity|].
      left. now exists ds.
  - destruct (py_float (cell row p)).
    + split; [discriminate|]. intros [_ [[ds' [H _]]|H]]; discriminate.
    + split; [discriminate|]. intros [_ [[ds' [H _]]|H]]; discriminate.
    + split; [|reflexivity]. intros _. split; [reflexivity | now right].
Qed.

Lemma load_products_raises (df : DataFrame) :
  _load_products df = None <-> table_raises df.
Proof.
  unfold _load_products, table_raises.
  destruct (_guess_columns df) as [[n p]|] eqn:Hg.
  - rewrite load_rows_none. split.
    + intros [row [Hin Hrow]]. right. exists n, p, row.
      split; [reflexivity|]. split; [exact Hin | now apply load_row_raises].
    + intros [Hc|[n' [p' [row [[= <- <-] [Hin Hrow]]]]]].
      * apply guess_columns_none in Hc. congruence.
      * exists row. split; [exact Hin | now apply load_row_raises].
  - split; [|reflexivity]. intros _. left. now apply guess_columns_none.
Qed.

Lemma load_files_loaded (cfs : list File) (comps : list (pystr * list Product)) :
  map load_file cfs = map Some comps ->
  forall cf, In cf cfs -> _load_products (f_table cf) <> None.
Proof.
  revert comps. induction cfs as [|cf cfs IH]; intros [|cp comps] H cf' Hin;
    try discriminate; [easy|].
  simpl in H. injection H as Hcf Hrest. destruct Hin as [<-|Hin].
  - intros E. unfold load_file in Hcf. rewrite E in Hcf. discriminate.
  - now apply (IH comps Hrest).
Qed.

End FailureFacts.

(** A run fails as soon as one table fails to load. *)
Lemma run_fails (U : Unicode) (B : Builtins) (W : pystr -> pystr -> Q)
    (my_file : File) (comp_files : list File) (min_score : Z) :
  table_raises (f_table my_file) \/
  (exists cf, In cf comp_files /\ table_raises (f_table cf)) ->
  run_full_analysis W my_file comp_files min_score = None.
Proof.
  intros [Hmy|[cf [Hin Hcf]]].
  - apply load_products_raises in Hmy. unfold run_full_analysis. now rewrite Hmy.
  - apply load_products_raises in Hcf.
    destruct (run_full_analysis W my_file comp_files min_score) as [out|] eqn:Hrun;
      [|reflexivity].
    destruct (run_inv W _ _ _ _ Hrun) as [my_products [comps [_ [Hcomps _]]]].
    now destruct (load_files_loaded comp_files comps Hcomps cf Hin).
Qed.

(** X8. A run fails, and returns no record at all, as soon as loading the
    merchant's table or the table of one of the competitor files raises:
    when that table has no column, or holds a row whose name is not
    rejected and whose size is written with more than 4300 digits or whose
    price is an integer beyond the range of [float]. *)
Theorem run_fails_with_table (U : Unicode) (B : Builtins) (W : pystr -> pystr -> Q)
    (my_file : File) (comp_files : list File) (min_score : Z) :
  table_raises (f_table my_file) \/
  (exists cf, In cf comp_files /\ table_raises (f_table cf)) ->
  run_full_analysis W my_file comp_files min_score = None.
Proof. apply run_fails. Qed.

Lemma run_fails_with_table_witness :
  run_full_analysis (U := basic_unicode) (B := plain_builtins)
    same_ratio shop_file broken_files 75 = None.
Proof.
  apply (@run_fails_with_table basic_unicode plain_builtins same_ratio
           shop_file broken_files 75).
  right. exists (nth 1 broken_files shop_file). split; [right; left; reflexivity|].
  right. exists 0%nat, 1%nat, [long_size_name; VInt 5].
  split; [reflexivity|]. split; [left; reflexivity|].
  split; [vm_compute; reflexivity|].
  left. exists (repeat 49%N (N.to_nat 4301)).
  split; vm_compute; reflexivity.
Defined.

Section TieBreak.
Variable W : pystr -> pystr -> Q.

(** The scan of [extractOne] keeps the first of the highest scores. *)
Lemma extract_scan_first (q : pystr) (l : list pystr) :
  forall ch sc,
  exists ch' sc',
    fold_left (extract_step W q) l (Some (ch, sc)) = Some (ch', sc') /\
    ((ch' = ch /\ sc' = sc /\ forall c, In c l -> (W q c <= sc)%Q) \/
     (exists pre post,
        l = pre ++ ch' :: post /\ sc' = W q ch' /\ (sc < sc')%Q /\
        (forall c, In c pre -> (W q c < sc')%Q) /\
        (forall c, In c post -> (W q c <= sc')%Q))).
Proof.
  induction l as [|c l IH]; intros ch sc; simpl.
  - exists ch, sc. split; [reflexivity|]. left. now repeat split.
  - destruct (Qlt_bool sc (W q c)) eqn:E.
    + apply Qlt_bool_iff in E.
      destruct (IH c (W q c)) as [ch' [sc' [Hf Hcase]]].
      exists ch', sc'. split; [exact Hf|]. right.
      destruct Hcase as [[-> [-> Hmax]]|[pre [post [-> [-> [Hlt [Hpre Hpost]]]]]]].
      * exists [], l. repeat split; auto. intros c' [].
      * exists (c :: pre), post. repeat split; auto.
        -- now apply Qlt_trans with (W q c).
        -- intros c' [<-|Hc']; [exact Hlt | now apply Hpre].
    + apply Qlt_bool_false in E.
      destruct (IH ch sc) as [ch' [sc' [Hf Hcase]]].
      exists ch', sc'. split; [exact Hf|].
      destruct Hcase as [[-> [-> Hmax]]|[pre [post [-> [-> [Hlt [Hpre Hpost]]]]]]].
      * left. repeat split; auto. intros c' [<-|Hc']; [exact E | now apply Hmax].
      * right. exists (c :: pre), post. repeat split; auto.
        intros c' [<-|Hc']; [now apply Qle_lt_trans with sc | now apply Hpre].
Qed.

Lemma extractOne_first (q : pystr) (l : list pystr) (ch : pystr) (sc : Q) :
  extractOne W q l = Some (ch, sc) ->
  exists pre post,
    l = pre ++ ch :: post /\ sc = W q ch /\
    (forall c, In c pre -> (W q c < sc)%Q) /\
    (forall c, In c post -> (W q c <= sc)%Q).
Proof.
  unfold extractOne. destruct l as [|c l]; simpl; [discriminate|].
  destruct (extract_scan_first q l c (W q c)) as [ch' [sc' [Hf Hcase]]].
  rewrite Hf. intros [= <- <-].
  destruct Hcase as [[-> [-> Hmax]]|[pre [post [-> [-> [Hlt [Hpre Hpost]]]]]]].
  - exists [], l. repeat split; auto. intros c' [].
  - exists (c :: pre), post. repeat split; auto.
    intros c' [<-|Hc']; [exact Hlt | now apply Hpre].
Qed.

Lemma find_after_prefix (pre : list Product) (b : Product) (post : list Product)
    (ch : pystr) :
  (forall c, In c pre -> p_fp c <> ch) -> p_fp b = ch ->
  find (fun c => str_eqb (p_fp c) ch) (pre ++ b :: post) = Some b.
Proof.
  intros Hpre Hb. induction pre as [|c pre IH]; simpl.
  - destruct (str_eqb (p_fp b) ch) eqn:E; [reflexivity|].
    apply str_eqb_eq in Hb. congruence.
  - destruct (str_eqb (p_fp c) ch) eqn:E.
    + apply str_eqb_eq in E. now destruct (Hpre c (or_introl eq_refl)).
    + apply IH. intros c' Hc'. apply Hpre. now right.
Qed.

End TieBreak.

(** X9. The competitor product a record reports is the first candidate, in
    the order of the competitor's table, whose score is the highest:
    every candidate before it scores strictly less, every candidate after
    it at most as much. *)
Theorem first_best_candidate (W : pystr -> pystr -> Q) (min_score : Z)
    (comp_name : pystr) (comp_products : list Product) (my_p : Product)
    (r : MatchRecord) :
  In r (match_pair W min_score comp_name comp_products my_p) ->
  exists pre best post,
    candidates_of comp_products my_p = pre ++ best :: post /\
    m_comp_product r = p_name best /\
    m_comp_price r = p_price best /\
    (forall c, In c pre ->
       (W (p_fp my_p) (p_fp c) < W (p_fp my_p) (p_fp best))%Q) /\
    (forall c, In c post ->
       (W (p_fp my_p) (p_fp c) <= W (p_fp my_p) (p_fp best))%Q).
Proof.
  unfold match_pair, match_step.
  destruct (p_size my_p =? 0)%Z; [easy|].
  destruct (candidates_of comp_products my_p) as [|c0 cs] eqn:Ec; [easy|].
  rewrite <- Ec. set (cands := candidates_of comp_products my_p) in *.
  destruct (extractOne W (p_fp my_p) (map p_fp cands)) as [[ch sc]|] eqn:Ex; [|easy].
  destruct (extractOne_first W _ _ _ _ Ex) as [pre [post [Hl [-> [Hpre Hpost]]]]].
  apply map_eq_app in Hl. destruct Hl as [cpre [crest [Hc [Hmpre Hrest]]]].
  apply map_eq_cons in Hrest. destruct Hrest as [b [cpost [-> [Hb Hmpost]]]].
  assert (Hfind : find (fun c => str_eqb (p_fp c) ch) cands = Some b).
  { rewrite Hc. apply find_after_prefix; [|exact Hb].
    intros c Hin Heq. apply (Qlt_irrefl (W (p_fp my_p) ch)).
    rewrite <- Heq at 1. apply Hpre. rewrite <- Hmpre. now apply in_map. }
  destruct (Qlt_bool (W (p_fp my_p) ch) (inject_Z min_score)); [easy|].
  rewrite Hfind. intros [<-|[]]. simpl.
  exists cpre, b, cpost. rewrite Hb. repeat split; auto.
  - intros c Hin. apply Hpre. rewrite <- Hmpre. now apply in_map.
  - intros c Hin. apply Hpost. rewrite <- Hmpost. now apply in_map.
Qed.

Lemma first_best_candidate_witness :
  exists r,
    match_pair same_ratio 75 (py "rival") twin_products dior_100 = [r] /\
    m_comp_product r = py "Sauvage Dior 100 ml" /\
    m_comp_price r = Finite 320.
Proof.
  destruct (match_pair same_ratio 75 (py "rival") twin_products dior_100)
    as [|r l] eqn:E; [vm_compute in E; discriminate E|].
  destruct (@first_best_candidate same_ratio 75 (py "rival") twin_products dior_100 r)
    as [pre [best [post [Hc _]]]].
  { rewrite E. now left. }
  exists r. vm_compute in E. injection E as <- <-. now repeat split.
Defined.

(* ================================================================== *)
(** * The label of a competitor *)
(* ================================================================== *)

Lemma before_last_dot_dot (l1 l2 : pystr) :
  before_last_dot (l1 ++ 46%N :: l2) <> None.
Proof.
  induction l1 as [|d l1 IH]; simpl.
  - destruct (before_last_dot l2); discriminate.
  - destruct (before_last_dot (l1 ++ 46%N :: l2)); [discriminate | easy].
Qed.

Lemma before_last_dot_some (s r : pystr) :
  before_last_dot s = Some r ->
  exists ext, s = r ++ 46%N :: ext /\ ~ In 46%N ext.
Proof.
  revert r. induction s as [|c s IH]; intros r; simpl; [discriminate|].
  destruct (before_last_dot s) as [r0|] eqn:E.
  - intros [= <-]. destruct (IH r0 eq_refl) as [ext [-> Hext]]. now exists ext.
  - destruct (N.eqb_spec c 46) as [Hc|Hc]; [|discriminate].
    intros [= <-]. exists s. split; [now rewrite Hc|].
    intros Hin. apply in_split in Hin. destruct Hin as [l1 [l2 ->]].
    now apply (before_last_dot_dot l1 l2).
Qed.

Lemma before_last_dot_none (s : pystr) :
  before_last_dot s = None -> ~ In 46%N s.
Proof.
  intros E Hin. apply in_split in Hin. destruct Hin as [l1 [l2 ->]].
  now apply (before_last_dot_dot l1 l2).
Qed.

(** X10. The label a record carries is the name of one of the competitor
    files without its last extension: what stands before the last dot of
    the name, and the whole name when it has no dot. *)
Theorem competitor_label (U : Unicode) (B : Builtins) (W : pystr -> pystr -> Q)
    (my_file : File) (comp_files : list File) (min_score : Z)
    (out : list MatchRecord) (r : MatchRecord) :
  run_full_analysis W my_file comp_files min_score = Some out ->
  In r out ->
  exists cf,
    In cf comp_files /\
    ((exists ext, f_name cf = m_competitor r ++ 46%N :: ext /\ ~ In 46%N ext) \/
     (f_name cf = m_competitor r /\ ~ In 46%N (f_name cf))).
Proof.
  intros Hrun Hin.
  destruct (run_record W _ _ _ _ _ Hrun Hin)
    as [my_products [cf [comp_products [my_p [best [_ [_ [Hcf [_ [_ [_ ->]]]]]]]]]]].
  exists cf. split; [exact Hcf|]. simpl. unfold rsplit_dot_head.
  destruct (before_last_dot (f_name cf)) as [base|] eqn:E.
  - left. now apply before_last_dot_some.
  - right. split; [reflexivity | now apply before_last_dot_none].
Qed.

Lemma competitor_label_witness :
  exists out,
    run_full_analysis (U := basic_unicode) (B := plain_builtins)
      same_ratio shop_file dotted_files 75 = Some out /\
    map m_competitor out = [py "rival.2024"; py "rival"] /\
    Forall (fun r => exists cf, In cf dotted_files /\
              ((exists ext, f_name cf = m_competitor r ++ 46%N :: ext /\
                            ~ In 46%N ext) \/
               (f_name cf = m_competitor r /\ ~ In 46%N (f_name cf)))) out.
Proof.
  destruct (run_full_analysis (U := basic_unicode) (B := plain_builtins)
              same_ratio shop_file dotted_files 75) as [out|] eqn:E;
    [|vm_compute in E; discriminate E].
  exists out. split; [reflexivity|]. split.
  - vm_compute in E. injection E as <-. reflexivity.
  - apply Forall_forall. intros r Hr.
    exact (@competitor_label basic_unicode plain_builtins same_ratio
             shop_file dotted_files 75 out r E Hr).
Defined.

(* ================================================================== *)
(** * The shape of a fingerprint *)
(* ================================================================== *)

Lemma insert_sorted_hd (x : pystr) (l : list pystr) (a : pystr) :
  str_le a x -> HdRel str_le a l -> HdRel str_le a (insert_sorted x l).
Proof.
  intros Hax Hl. destruct l as [|y l]; simpl; [now constructor|].
  destruct (str_leb x y); constructor; [exact Hax|].
  now inversion Hl.
Qed.

Lemma insert_sorted_Sorted (x : pystr) (l : list pystr) :
  Sorted str_le l -> Sorted str_le (insert_sorted x l).
Proof.
  induction 1 as [|y l Hl IH Hhd]; simpl.
  - repeat constructor.
  - destruct (str_leb x y) eqn:E.
    + constructor; [now constructor | now constructor].
    + constructor; [exact IH|].
      apply insert_sorted_hd; [|exact Hhd]. now apply str_leb_total.
Qed.

Lemma sorted_Sorted (l : list pystr) : Sorted str_le (sorted l).
Proof.
  induction l as [|x l IH]; simpl; [constructor | now apply insert_sorted_Sorted].
Qed.

(** X11. A fingerprint is made of tokens in the order of Python on strings,
    with one space between them and no whitespace around them; it holds
    no digit, and nothing besides word characters and those spaces. *)
Theorem fingerprint_shape (U : Unicode) (L : UnicodeLaws U) (s : pystr) :
  exists toks,
    _fingerprint (VStr s) = join [32%N] toks /\
    split (_fingerprint (VStr s)) = toks /\
    Forall token toks /\
    Sorted str_le toks /\
    forall c, In c (_fingerprint (VStr s)) ->
      isdigit c = false /\ (c = 32%N \/ (isword c = true /\ isspace c = false)).
Proof.
  exists (sorted (split (clean s))).
  assert (Htok : Forall token (sorted (split (clean s)))).
  { apply (Permutation_Forall (Permutation_sym (sorted_is_perm _))).
    apply split_tokens. }
  split; [apply fingerprint_join|].
  split; [rewrite fingerprint_join; now apply split_join|].
  split; [exact Htok|]. split; [apply sorted_Sorted|].
  intros c Hc. split; [apply (fingerprint_fp_char s c Hc)|].
  rewrite fingerprint_join in Hc. apply join_chars in Hc.
  destruct Hc as [->|[t [Ht Hc]]]; [now left|]. right.
  assert (Hns : isspace c = false).
  { rewrite Forall_forall in Htok. destruct (Htok t Ht) as [_ Hall].
    rewrite forallb_forall in Hall. apply nonspace_true. now apply Hall. }
  split; [|exact Hns].
  apply (Permutation_in _ (sorted_is_perm _)) in Ht.
  assert (Hfp : fp_char c) by (apply (clean_fp_char s); now apply (split_chars _ t)).
  destruct Hfp as [_ [_ [_ [Hw _]]]]. rewrite Hns, orb_false_r in Hw. exact Hw.
Qed.

Lemma fingerprint_shape_witness :
  exists toks,
    _fingerprint (U := basic_unicode)
      (VStr (py "  No.5 Chanel, Eau de Parfum (100 ml) ")) = join [32%N] toks /\
    split (_fingerprint (U := basic_unicode)
             (VStr (py "  No.5 Chanel, Eau de Parfum (100 ml) "))) = toks /\
    Sorted str_le toks.
Proof.
  destruct (@fingerprint_shape basic_unicode basic_unicode_laws
              (py "  No.5 Chanel, Eau de Parfum (100 ml) "))
    as [toks [H1 [H2 [_ [H3 _]]]]].
  exists toks. now repeat split.
Defined.

Example fingerprint_shape_example :
  _fingerprint (U := basic_unicode)
    (VStr (py "  No.5 Chanel, Eau de Parfum (100 ml) ")) = py "chanel no".
Proof. reflexivity. Qed.

(* ================================================================== *)
(** * The final table *)
(* ================================================================== *)

Lemma frame_columns_rest (l : list MatchRecord) :
  fold_left (fun seen d => add_keys seen (map fst d)) (map match_dict l) MASTER_COLS =
  MASTER_COLS.
Proof. induction l as [|r l IH]; simpl; [reflexivity | exact IH]. Qed.

Lemma frame_columns_matches (r : MatchRecord) (l : list MatchRecord) :
  frame_columns (map match_dict (r :: l)) = MASTER_COLS.
Proof. unfold frame_columns. simpl. apply frame_columns_rest. Qed.

Lemma master_row (r : MatchRecord) :
  map (fun k => cell (map (fun k' => match dict_get (match_dict r) k' with
                                     | Some v => v
                                     | None => VFloat NaN
                                     end) MASTER_COLS)
                     (label_index (map VStr MASTER_COLS) k)) MASTER_COLS =
  match_row r.
Proof. reflexivity. Qed.

Lemma master_table_eq (out : list MatchRecord) :
  build_master_dataframe (map match_dict out) =
  match out with
  | [] => {| columns := []; rows := [] |}
  | _ => {| columns := map VStr MASTER_COLS; rows := map match_row out |}
  end.
Proof.
  destruct out as [|r l]; [reflexivity|].
  unfold build_master_dataframe, frame_of_dicts.
  rewrite (frame_columns_matches r l).
  unfold select_columns, has_column. cbn [columns rows].
  replace (filter (fun k => existsb (is_label k) (map VStr MASTER_COLS)) MASTER_COLS)
    with MASTER_COLS by reflexivity.
  f_equal. rewrite !map_map. apply map_ext. intros r'. apply master_row.
Qed.

(** X12. The table of no match has no column and no row; the table of some
    matches has the ten columns in their fixed order and one row for each
    match, in the order of the matches. *)
Theorem master_table (out : list MatchRecord) :
  build_master_dataframe (map match_dict out) =
  match out with
  | [] => {| columns := []; rows := [] |}
  | _ => {| columns := map VStr MASTER_COLS; rows := map match_row out |}
  end.
Proof. apply master_table_eq. Qed.

(** X13. The three counters of the results page add up to the number of
    rows. *)
Theorem decision_counts (out : list MatchRecord) :
  let df := build_master_dataframe (map match_dict out) in
  (count_where df (py "القرار") (decision_label Losing) +
   count_where df (py "القرار") (decision_label Leading) +
   count_where df (py "القرار") (decision_label Tied))%nat =
  List.length (rows df) /\
  List.length (rows df) = List.length out.
Proof.
  intros df. subst df. rewrite master_table_eq.
  destruct out as [|r0 l0]; [now split|].
  set (out := r0 :: l0). clearbody out. clear r0 l0.
  unfold count_where. cbn [columns rows]. split; [|apply length_map].
  induction out as [|r l IH]; [reflexivity|].
  cbn [map filter List.length].
  change (label_index (map VStr MASTER_COLS) (py "القرار")) with 8%nat in *.
  change (cell (match_row r) 8) with (VStr (decision_label (m_decision r))).
  destruct (m_decision r);
    cbn [is_label];
    repeat match goal with
    | |- context [str_eqb (decision_label ?a) (decision_label ?b)] =>
        let v := eval vm_compute in (str_eqb (decision_label a) (decision_label b)) in
        change (str_eqb (decision_label a) (decision_label b)) with v
    end; cbn [List.length]; lia.
Qed.

(** X14. When the application stores a table, a merchant file and at least
    one competitor file were given, the run returned at least one match,
    and the table has the ten columns and one row of ten cells for each
    match. *)
Theorem process_stored (U : Unicode) (B : Builtins) (W : pystr -> pystr -> Q)
    (my_file : option File) (comp_files : list File) (min_score : Z)
    (df : DataFrame) :
  process W my_file comp_files min_score = Stored df ->
  exists f out,
    my_file = Some f /\ comp_files <> [] /\
    run_full_analysis W f comp_files min_score = Some out /\
    out <> [] /\
    columns df = map VStr MASTER_COLS /\
    rows df = map match_row out /\
    Forall (fun row => List.length row = 10%nat) (rows df).
Proof.
  unfold process. destruct my_file as [f|]; [|discriminate].
  destruct comp_files as [|cf cfs]; [discriminate|].
  destruct (run_full_analysis W f (cf :: cfs) min_score) as [[|r l]|] eqn:Hrun;
    try discriminate.
  intros Hst. injection Hst as Hdf. exists f, (r :: l).
  pose proof (master_table_eq (r :: l)) as Hm. cbn [map] in Hm, Hdf.
  rewrite Hm in Hdf. subst df. cbn [columns rows].
  repeat split; try easy.
  apply Forall_forall. intros row Hrow.
  change (In row (map match_row (r :: l))) in Hrow. apply in_map_iff in Hrow.
  destruct Hrow as [r' [<- _]]. reflexivity.
Qed.

Lemma process_stored_witness :
  exists df,
    process (U := basic_unicode) (B := plain_builtins)
      same_ratio (Some shop_file) rival_files 75 = Stored df /\
    columns df = map VStr MASTER_COLS /\
    List.length (rows df) = 4%nat.
Proof.
  destruct (process (U := basic_unicode) (B := plain_builtins)
              same_ratio (Some shop_file) rival_files 75) as [| | | |df] eqn:E;
    try (vm_compute in E; discriminate E).
  destruct (@process_stored basic_unicode plain_builtins same_ratio
              (Some shop_file) rival_files 75 df E)
    as [f [out [_ [_ [_ [_ [Hc _]]]]]]].
  exists df. split; [reflexivity|]. split; [exact Hc|].
  vm_compute in E. injection E as <-. reflexivity.
Defined.

(** X15. The application runs the engine only when both kinds of files
    are there: it reports the failure of a run only then, and it does
    report one when loading one of the tables raises. *)
Theorem process_crashed (U : Unicode) (B : Builtins) (W : pystr -> pystr -> Q)
    (my_file : option File) (comp_files : list File) (min_score : Z) :
  (process W my_file comp_files min_score = Crashed ->
   exists f,
     my_file = Some f /\ comp_files <> [] /\
     run_full_analysis W f comp_files min_score = None) /\
  (forall f,
     my_file = Some f -> comp_files <> [] ->
     table_raises (f_table f) \/
     (exists cf, In cf comp_files /\ table_raises (f_table cf)) ->
     process W my_file comp_files min_score = Crashed).
Proof.
  unfold process. split.
  - destruct my_file as [f|]; [|discriminate].
    destruct comp_files as [|cf cfs]; [discriminate|].
    destruct (run_full_analysis W f (cf :: cfs) min_score) as [[|r l]|] eqn:Hrun;
      try discriminate.
    intros _. exists f. split; [reflexivity|]. split; [easy | exact Hrun].
  - intros f -> Hne H. destruct comp_files as [|cf cfs]; [easy|].
    now rewrite (run_fails U B W f (cf :: cfs) min_score H).
Qed.
